(** * PostgresConnection: a shallow embedding of src/PostgresConnection.js

    The adapter class [PsotgresConnection] sits between the pooling layer
    and the [pg] driver.  This development embeds its methods as Rocq
    functions over an explicit connection state and proves (or refutes)
    the statements the specification makes about them.

    Layout: JavaScript values and coercions; errors; the driver handle and
    the connection object; the adapter's methods in source order; the
    literal SQL renderer; then the theorems. *)

From Stdlib Require Import List String Ascii ZArith Bool Arith Lia DecimalString.
From Equations Require Import Equations.
Import ListNotations.
Open Scope string_scope.

(* ===================================================================== *)
(** ** JavaScript values *)
(* ===================================================================== *)

(** The values the adapter handles: what the driver hands back, what the
    caller binds to placeholders, and what a property lookup can yield.
    Numbers are restricted to the safe integers (magnitude below 2^53),
    on which ToString is the plain decimal notation; [JFun] is a built-in
    function known by its name. *)
#[warnings="-register-all"]
Inductive JsValue : Type :=
| JUndefined
| JNull
| JBool (b : bool)
| JNum (z : Z)
| JStr (s : string)
| JArr (items : list JsValue)
| JObj (props : list (string * JsValue))
| JFun (name : string).

(** ToBoolean, as used by [if (x)], [!x], [a && b] and [a ? b : c]. *)
Definition truthy (v : JsValue) : bool :=
  match v with
  | JUndefined | JNull => false
  | JBool b => b
  | JNum z => negb (z =? 0)%Z
  | JStr s => negb (s =? EmptyString)
  | JArr _ | JObj _ | JFun _ => true
  end.

(** ToString, as performed by [v + ''] and by string concatenation. *)
Fixpoint to_string (v : JsValue) : string :=
  match v with
  | JUndefined => "undefined"
  | JNull => "null"
  | JBool true => "true"
  | JBool false => "false"
  | JNum z => NilZero.string_of_int (Z.to_int z)
  | JStr s => s
  | JArr items =>
      (fix join (l : list JsValue) : string :=
         match l with
         | [] => EmptyString
         | x :: r =>
             let elt := match x with
                        | JUndefined | JNull => EmptyString
                        | _ => to_string x
                        end in
             match r with
             | [] => elt
             | _ :: _ => elt ++ "," ++ join r
             end
         end) items
  | JObj _ => "[object Object]"
  | JFun name => "function " ++ name ++ "() { [native code] }"
  end.

(** The predicates of the [ee-types] helper the adapter calls:
    [type.string], [type.null] and, further down, [type.object]. *)
Definition type_string (v : JsValue) : bool :=
  match v with JStr _ => true | _ => false end.

Definition type_null (v : JsValue) : bool :=
  match v with JNull => true | _ => false end.

Definition type_function (v : JsValue) : bool :=
  match v with JFun _ => true | _ => false end.

(** [x === 'literal'] *)
Definition strict_eq_str (v : JsValue) (lit : string) : bool :=
  match v with JStr s => s =? lit | _ => false end.

Fixpoint assoc (k : string) (ps : list (string * JsValue)) : option JsValue :=
  match ps with
  | [] => None
  | (k', v) :: r => if k =? k' then Some v else assoc k r
  end.

(** What every object literal inherits from [Object.prototype]. *)
Definition Object_prototype : list (string * JsValue) :=
  [ ("constructor", JFun "Object");
    ("toString", JFun "toString");
    ("toLocaleString", JFun "toLocaleString");
    ("valueOf", JFun "valueOf");
    ("hasOwnProperty", JFun "hasOwnProperty");
    ("isPrototypeOf", JFun "isPrototypeOf");
    ("propertyIsEnumerable", JFun "propertyIsEnumerable");
    ("__defineGetter__", JFun "__defineGetter__");
    ("__defineSetter__", JFun "__defineSetter__");
    ("__lookupGetter__", JFun "__lookupGetter__");
    ("__lookupSetter__", JFun "__lookupSetter__");
    ("__proto__", JObj []) ].

(** [obj[key]] on an object literal: own properties first, then the
    prototype, [undefined] when neither has the key. *)
Definition lookup (props : list (string * JsValue)) (key : string) : JsValue :=
  match assoc key props with
  | Some v => v
  | None => match assoc key Object_prototype with
            | Some v => v
            | None => JUndefined
            end
  end.

(** [type.object] of [ee-types]: a plain object (not an array, not null,
    not a function) that is not promise-like, that is, does not have
    functions as both its [then] and its [catch]. *)
Definition type_object (v : JsValue) : bool :=
  match v with
  | JObj props =>
      negb (type_function (lookup props "then")
            && type_function (lookup props "catch"))
  | _ => false
  end.

(** [v.key] for the values on which the adapter reads [command] and [rows]. *)
Definition get_prop (v : JsValue) (key : string) : JsValue :=
  match v with
  | JObj props => lookup props key
  | _ => JUndefined
  end.

(** The [length] of the built-in functions of [Object_prototype]: the
    number of their formal parameters. *)
Definition builtin_arity (name : string) : Z :=
  if name =? "Object" then 1
  else if name =? "hasOwnProperty" then 1
  else if name =? "isPrototypeOf" then 1
  else if name =? "propertyIsEnumerable" then 1
  else if name =? "__defineGetter__" then 2
  else if name =? "__defineSetter__" then 2
  else if name =? "__lookupGetter__" then 1
  else if name =? "__lookupSetter__" then 1
  else 0.

(** [v.length] *)
Definition js_length (v : JsValue) : JsValue :=
  match v with
  | JArr items => JNum (Z.of_nat (List.length items))
  | JStr s => JNum (Z.of_nat (String.length s))
  | JObj props => lookup props "length"
  | JFun name => JNum (builtin_arity name)
  | _ => JUndefined
  end.

(** [v[0]] *)
Definition js_first (v : JsValue) : JsValue :=
  match v with
  | JArr (x :: _) => x
  | JStr (String c _) => JStr (String c EmptyString)
  | JObj props => lookup props "0"
  | _ => JUndefined
  end.

(* ===================================================================== *)
(** ** Errors *)
(* ===================================================================== *)

(** An error object as raised by the driver or by node's network layer;
    [code] is whatever its [code] property holds ([JUndefined] if none). *)
Record DriverError : Type := mkDriverError {
  code : JsValue;
  message : string
}.

(** The errors the adapter hands to its callers: a driver error passed
    through untouched, one of the [RelatedError] wrappers around it, or an
    error the adapter (or the runtime) makes itself. *)
Inductive JsError : Type :=
| Raw (e : DriverError)
| InvalidCredentialsError (e : DriverError)
| FailedToConnectError (e : DriverError)
| DuplicateKeyError (e : DriverError)
| Error (msg : string)
| TypeError (msg : string).

(** A synchronous completion: a value, or an exception in flight. *)
Inductive Completion (A : Type) : Type :=
| Return (a : A)
| Throw (e : JsError).
Arguments Return {A} a.
Arguments Throw {A} e.

(** The state of a promise. *)
Inductive Outcome : Type :=
| Resolved (v : JsValue)
| Rejected (e : JsError)
| Pending.

(** Lines 61-67: the translation inside the [connect] callback. *)
Definition connectCallback (err : option DriverError) : option JsError :=
  match err with
  | None => None
  | Some e =>
      Some (if strict_eq_str (code e) "28P01" then InvalidCredentialsError e
            else if strict_eq_str (code e) "ECONNREFUSED" then FailedToConnectError e
            else if strict_eq_str (code e) "ENETUNREACH" then FailedToConnectError e
            else if strict_eq_str (code e) "ECONNRESET" then FailedToConnectError e
            else if strict_eq_str (code e) "EHOSTUNREACH" then FailedToConnectError e
            else Raw e)
  end.

(** Lines 76-79: the translation at the head of the ['error'] listener. *)
Definition errorListenerTranslate (e : DriverError) : JsError :=
  if strict_eq_str (code e) "ECONNREFUSED" then FailedToConnectError e
  else if strict_eq_str (code e) "ENETUNREACH" then FailedToConnectError e
  else if strict_eq_str (code e) "ECONNRESET" then FailedToConnectError e
  else if strict_eq_str (code e) "EHOSTUNREACH" then FailedToConnectError e
  else Raw e.

(** Line 171: the translation inside the [query] callback. *)
Definition queryErrorTranslate (e : DriverError) : JsError :=
  if truthy (code e) && strict_eq_str (code e) "23505" then DuplicateKeyError e
  else Raw e.

(* ===================================================================== *)
(** ** Query contexts and the query callback *)
(* ===================================================================== *)

(** A [QueryContext]: [ast] holds whatever the query builder stored there
    (tested for truthiness only), [mode] the optional mode tag. *)
Record QueryContext : Type := mkQueryContext {
  sql : string;
  values : list JsValue;
  ast : JsValue;
  mode : option string
}.

(** What the driver passes to the callback of [query]: [(err, data)]. *)
Inductive Reply : Type :=
| Failure (e : DriverError)
| Success (data : JsValue).

(** What the callback does with the promise: settle it, or call
    [executeQuery] again. *)
Inductive Settlement : Type :=
| Settle (o : Outcome)
| Retry.

Definition unexpected_return_value : JsError :=
  Error "unexpected return value from pg driver!".

(** Lines 171-201: the body of the callback given to [connection.query]. *)
Definition queryCallback (queryContext : QueryContext) (dontRetry : bool)
    (r : Reply) : Settlement :=
  match r with
  | Failure e => Settle (Rejected (queryErrorTranslate e))
  | Success data =>
      if truthy (ast queryContext) then Settle (Resolved data)
      else if type_object data then
        let command := get_prop data "command" in
        let rows := get_prop data "rows" in
        if strict_eq_str command "SELECT" then Settle (Resolved rows)
        else if strict_eq_str command "INSERT" then
          Settle (Resolved (if truthy rows && truthy (js_length rows)
                            then js_first rows else JNull))
        else Settle (Resolved data)
      else if negb dontRetry && type_null data then Retry
      else Settle (Rejected unexpected_return_value)
  end.

(* ===================================================================== *)
(** ** The driver handle and the connection object *)
(* ===================================================================== *)

(** The options handed to [pg.Client]. *)
Record Config : Type := mkConfig {
  host : JsValue;
  port : JsValue;
  username : JsValue;
  password : JsValue;
  database : JsValue
}.

(** The [pg.Client] object.  Its behaviour is part of the record so that
    every statement below holds for any driver: the two escaping
    primitives, what [connect] will report, and the answers the server
    gives to the statements still to come (an empty list means the
    callback has not been called yet).  The rest is what the adapter did
    to it: the statements handed over, the [end()] requests, the
    callbacks registered with [once('end', cb)] and those already run. *)
Record Client : Type := mkClient {
  options : Config;
  escapeLiteral : string -> string;
  escapeIdentifier : string -> string;
  connectResult : option DriverError;
  answers : list Reply;
  wire : list (string * list JsValue);
  endRequests : nat;
  endListeners : list nat;
  endCallbacksRun : list nat
}.

Definition client_query (s : string) (vs : list JsValue) (cl : Client)
  : option Reply * Client :=
  (hd_error (answers cl),
   mkClient (options cl) (escapeLiteral cl) (escapeIdentifier cl)
     (connectResult cl) (tl (answers cl)) (wire cl ++ [(s, vs)])
     (endRequests cl) (endListeners cl) (endCallbacksRun cl)).

Definition client_end (cl : Client) : Client :=
  mkClient (options cl) (escapeLiteral cl) (escapeIdentifier cl)
    (connectResult cl) (answers cl) (wire cl)
    (S (endRequests cl)) (endListeners cl) (endCallbacksRun cl).

Definition client_once_end (cb : nat) (cl : Client) : Client :=
  mkClient (options cl) (escapeLiteral cl) (escapeIdentifier cl)
    (connectResult cl) (answers cl) (wire cl)
    (endRequests cl) (endListeners cl ++ [cb]) (endCallbacksRun cl).

(** The handle confirms termination: it emits ['end'], which runs the
    listeners registered with [once] and drops them. *)
Definition client_emits_end (cl : Client) : Client :=
  mkClient (options cl) (escapeLiteral cl) (escapeIdentifier cl)
    (connectResult cl) (answers cl) (wire cl)
    (endRequests cl) [] (endCallbacksRun cl ++ endListeners cl).

(** [this.connection] either refers to the client or is absent (never
    assigned, or removed by [delete this.connection]). *)
Inductive HandleRef : Type := pgClient.

(** The adapter object together with the client it created.  [ended],
    [killed], [pooled], [inflight] and [settled] belong to the inherited
    base class: the query awaiting its callback (with its [dontRetry]
    flag) and the promises settled so far.  [emitted] lists the ['error']
    events the adapter emitted. *)
Record Connection : Type := mkConnection {
  connection : option HandleRef;
  client : Client;
  ended : bool;
  killed : bool;
  isTransaction : bool;
  transactionOpen : bool;
  pooled : bool;
  inflight : option (QueryContext * bool);
  settled : list (QueryContext * Outcome);
  emitted : list JsError
}.

Definition set_connection (r : option HandleRef) (c : Connection) : Connection :=
  mkConnection r (client c) (ended c) (killed c) (isTransaction c)
    (transactionOpen c) (pooled c) (inflight c) (settled c) (emitted c).

Definition set_client (cl : Client) (c : Connection) : Connection :=
  mkConnection (connection c) cl (ended c) (killed c) (isTransaction c)
    (transactionOpen c) (pooled c) (inflight c) (settled c) (emitted c).

Definition set_ended (b : bool) (c : Connection) : Connection :=
  mkConnection (connection c) (client c) b (killed c) (isTransaction c)
    (transactionOpen c) (pooled c) (inflight c) (settled c) (emitted c).

Definition set_killed (b : bool) (c : Connection) : Connection :=
  mkConnection (connection c) (client c) (ended c) b (isTransaction c)
    (transactionOpen c) (pooled c) (inflight c) (settled c) (emitted c).

Definition set_isTransaction (b : bool) (c : Connection) : Connection :=
  mkConnection (connection c) (client c) (ended c) (killed c) b
    (transactionOpen c) (pooled c) (inflight c) (settled c) (emitted c).

Definition set_transactionOpen (b : bool) (c : Connection) : Connection :=
  mkConnection (connection c) (client c) (ended c) (killed c) (isTransaction c)
    b (pooled c) (inflight c) (settled c) (emitted c).

Definition set_pooled (b : bool) (c : Connection) : Connection :=
  mkConnection (connection c) (client c) (ended c) (killed c) (isTransaction c)
    (transactionOpen c) b (inflight c) (settled c) (emitted c).

Definition set_inflight (q : option (QueryContext * bool)) (c : Connection)
  : Connection :=
  mkConnection (connection c) (client c) (ended c) (killed c) (isTransaction c)
    (transactionOpen c) (pooled c) q (settled c) (emitted c).

Definition set_settled (l : list (QueryContext * Outcome)) (c : Connection)
  : Connection :=
  mkConnection (connection c) (client c) (ended c) (killed c) (isTransaction c)
    (transactionOpen c) (pooled c) (inflight c) l (emitted c).

Definition set_emitted (l : list JsError) (c : Connection) : Connection :=
  mkConnection (connection c) (client c) (ended c) (killed c) (isTransaction c)
    (transactionOpen c) (pooled c) (inflight c) (settled c) l.

(** Reading a property of [this.connection] after it was deleted. *)
Definition no_handle (prop : string) : JsError :=
  TypeError ("Cannot read properties of undefined (reading '" ++ prop ++ "')").

(* ===================================================================== *)
(** ** executeQuery (lines 167-207) *)
(* ===================================================================== *)

(** One pass through the promise body: hand the statement to the driver
    and, when the driver answers, run the callback.  A missing handle
    makes line 170 throw; the [catch] turns that into a rejection.  With
    no answer yet the promise stays pending and the query is in flight. *)
Definition attempt (queryContext : QueryContext) (dontRetry : bool)
    (c : Connection) : Settlement * Connection :=
  match connection c with
  | None => (Settle (Rejected (no_handle "query")), c)
  | Some _ =>
      let '(reply, cl) :=
        client_query (sql queryContext) (values queryContext) (client c) in
      match reply with
      | None =>
          (Settle Pending,
           set_inflight (Some (queryContext, dontRetry)) (set_client cl c))
      | Some r => (queryCallback queryContext dontRetry r, set_client cl c)
      end
  end.

Lemma queryCallback_Retry queryContext dontRetry r :
  queryCallback queryContext dontRetry r = Retry -> dontRetry = false.
Proof.
  unfold queryCallback.
  destruct r as [e | data]; [discriminate |].
  destruct (truthy (ast queryContext)); [discriminate |].
  destruct (type_object data).
  - destruct (strict_eq_str _ "SELECT"); [discriminate |].
    destruct (strict_eq_str _ "INSERT"); discriminate.
  - destruct dontRetry; [simpl; discriminate | reflexivity].
Qed.

Lemma attempt_Retry queryContext dontRetry c c' :
  attempt queryContext dontRetry c = (Retry, c') -> dontRetry = false.
Proof.
  unfold attempt.
  destruct (connection c); [| discriminate].
  destruct (client_query _ _ _) as [[r |] cl]; [| discriminate].
  intros H. injection H as H _. exact (queryCallback_Retry _ _ _ H).
Qed.

Definition inspect {A : Type} (a : A) : { b : A | a = b } :=
  exist _ a eq_refl.

(** [executeQuery(queryContext, dontRetry)]: the only recursive call is the
    one of line 195, taken when the callback asks for a retry, which it
    does only while [dontRetry] is unset; the call sets it. *)
Equations? executeQuery (queryContext : QueryContext) (dontRetry : bool)
    (c : Connection) : Outcome * Connection
    by wf (Nat.b2n (negb dontRetry)) lt :=
  executeQuery queryContext dontRetry c
    with inspect (attempt queryContext dontRetry c) := {
    | exist _ (Settle o, c') _ => (o, c')
    | exist _ (Retry, c') H => executeQuery queryContext true c' }.
Proof.
  rewrite (attempt_Retry _ _ _ _ H). simpl. lia.
Qed.

(* ===================================================================== *)
(** ** The inherited base class *)
(* ===================================================================== *)

Definition connection_ended : JsError := Error "connection ended".

(** Modelled from the spec: the inherited method [query] of the base class
    [Connection] (package related-db-connection), which is not among the
    sources.  "Queries are accepted only in Connected or TransactionOpen;
    once Ended or Killed, the connection is permanently unusable"; "any
    attempt to query it fails fast with a connection ended condition".
    An accepted query goes to [executeQuery] as a first attempt. *)
Definition query (queryContext : QueryContext) (c : Connection)
  : Outcome * Connection :=
  if ended c || killed c then (Rejected connection_ended, c)
  else executeQuery queryContext false c.

(** Modelled from the spec: [query] called with SQL text instead of a
    context, as [lock] does; the base class (not among the sources) wraps
    the text in a context without bound values, AST or mode tag. *)
Definition context_of_sql (text : string) : QueryContext :=
  mkQueryContext text [] JUndefined None.

(** Modelled from the spec: the inherited method [removeFromPool] (not
    among the sources): "detach it from the shared pool (it must not be
    handed to another caller until the transaction concludes)". *)
Definition removeFromPool (c : Connection) : Connection :=
  set_pooled false c.

(** Modelled from the spec: the base class's reaction to the ['error']
    event the adapter emits (not among the sources): the failure is
    signalled "to any currently pending query (must fail immediately with
    that error)". *)
Definition base_on_error (err : JsError) (c : Connection) : Connection :=
  match inflight c with
  | None => c
  | Some (q, _) =>
      set_inflight None (set_settled (settled c ++ [(q, Rejected err)]) c)
  end.

(** Modelled from the spec: the inherited method [end] as the ['error']
    listener calls it, with the error (not among the sources): "transition
    state to Killed" and signal the failure "to the lifecycle's own
    observers (so the pool can discard the connection)". *)
Definition end_with (err : JsError) (c : Connection) : Connection :=
  set_pooled false (set_killed true c).

(** [this.emit('error', err)]: the event is recorded and the base class's
    listener runs. *)
Definition emit_error (err : JsError) (c : Connection) : Connection :=
  base_on_error err (set_emitted (emitted c ++ [err]) c).

(* ===================================================================== *)
(** ** driverConnect (lines 43-94) *)
(* ===================================================================== *)

Definition with_defaults (config : Config) : Config :=
  let config1 :=
    if truthy (port config) then config
    else mkConfig (host config) (JNum 5432) (username config)
           (password config) (database config) in
  if truthy (username config1) then config1
  else mkConfig (host config1) (port config1) (JStr "postgres")
         (password config1) (database config1).

(** [driverConnect(config, callback)]: [new_Client] stands for
    [new pg.Client(...)]; the result is what [callback] receives. *)
Definition driverConnect (config : Config) (new_Client : Config -> Client)
    (c : Connection) : option JsError * Connection :=
  let cl := new_Client (with_defaults config) in
  (connectCallback (connectResult cl),
   set_client cl (set_connection (Some pgClient) c)).

(** Lines 74-93: the listener for the handle's ['error'] event. *)
Definition errorListener (err : DriverError) (c : Connection)
  : Completion Connection :=
  match connection c with
  | None => Throw (no_handle "end")
  | Some _ =>
      let err' := errorListenerTranslate err in
      let c1 := set_client (client_end (client c)) c in
      let c2 := set_connection None c1 in
      let c3 := emit_error err' c2 in
      Return (end_with err' c3)
  end.

(* ===================================================================== *)
(** ** endConnection, escape, escapeId, lock, createTransaction *)
(* ===================================================================== *)

(** Lines 105-108; [callback] is identified by a number. *)
Definition endConnection (callback : nat) (c : Connection)
  : Completion Connection :=
  match connection c with
  | None => Throw (no_handle "once")
  | Some _ =>
      Return (set_client (client_end (client_once_end callback (client c))) c)
  end.

(** Modelled from the spec: the inherited method [end] as a caller uses
    it, without an error (the base class is not among the sources).  It
    "requests graceful close", which is what the hook [endConnection]
    does, and "resolves only once the underlying handle confirms
    termination"; on a connection that "has already been Killed (nothing
    to close)" it is "a benign no-op, not an error". *)
Definition end_ (callback : nat) (c : Connection) : Completion Connection :=
  if killed c then Return c else endConnection callback c.

(** Modelled from the spec: the handle confirms termination, that is,
    emits ['end']; the callbacks registered by [endConnection] run and
    the "Connection transitions to Ended" (the base class is not among
    the sources). *)
Definition handle_confirms_end (c : Connection) : Connection :=
  set_ended true (set_client (client_emits_end (client c)) c).

(** Lines 138-140. *)
Definition escape (input : JsValue) (c : Connection) : Completion string :=
  match connection c with
  | None => Throw (no_handle "escapeLiteral")
  | Some _ => Return (escapeLiteral (client c) (to_string input))
  end.

(** Lines 151-155. *)
Definition escapeId (input : JsValue) (c : Connection) : Completion string :=
  if negb (type_string input) || negb (truthy (js_length input))
  then Throw (Error ("Cannot escape id «" ++ to_string input ++ "»!"))
  else match connection c with
       | None => Throw (no_handle "escapeIdentifier")
       | Some _ => Return (escapeIdentifier (client c) (to_string input))
       end.

(** Lines 30-33. *)
Definition lockModes : list (string * JsValue) :=
  [ ("LOCK_WRITE", JStr "SHARE ROW EXCLUSIVE");
    ("LOCK_EXCLUSIVE", JStr "ACCESS EXCLUSIVE") ].

(** Lines 118-125.  [Throw]: an exception left [lock] before any callback;
    [Return (Rejected e)]: [callback(e)]; [Return (Resolved d)]:
    [callback(null, d)]; [Return Pending]: the query has not settled. *)
Definition lock (schema table lockType : JsValue) (c : Connection)
  : Completion Outcome * Connection :=
  let phrase := lookup lockModes (to_string lockType) in
  if negb (truthy phrase) then
    (Return (Rejected (Error ("Invalid or not supported lock type «"
                              ++ to_string lockType ++ "»!"))), c)
  else
    let qualifier :=
      if truthy schema then
        match escapeId schema c with
        | Return s => Return (s ++ ".")
        | Throw e => Throw e
        end
      else Return EmptyString in
    match qualifier with
    | Throw e => (Throw e, c)
    | Return q =>
        match escapeId table c with
        | Throw e => (Throw e, c)
        | Return t =>
            let '(o, c') :=
              query (context_of_sql ("LOCK TABLE " ++ q ++ t ++ " IN "
                                     ++ to_string phrase ++ " MODE;")) c in
            (Return o, c')
        end
    end.

Definition begin_transaction : QueryContext :=
  mkQueryContext "start transaction;" [] JUndefined (Some "transaction").

(** Lines 216-230. *)
Definition createTransaction (c : Connection) : Outcome * Connection :=
  if ended c || killed c then
    (Rejected (Error "Cannot start transaction, the connection has ended!"), c)
  else
    query begin_transaction
      (removeFromPool (set_transactionOpen true (set_isTransaction true c))).

(* ===================================================================== *)
(** ** renderSQLQuery (lines 243-262) *)
(* ===================================================================== *)

(** Strings are handled as lists of characters inside the renderer. *)
Definition chars := list ascii.

Definition is_digit (ch : ascii) : bool :=
  (48 <=? nat_of_ascii ch)%nat && (nat_of_ascii ch <=? 57)%nat.

Definition is_dollar (ch : ascii) : bool := Ascii.eqb ch "$"%char.

(** The longest run of digits at the head of a text: [[0-9]+] is greedy. *)
Fixpoint digits_prefix (s : chars) : chars :=
  match s with
  | ch :: r => if is_digit ch then ch :: digits_prefix r else []
  | [] => []
  end.

(** [/\$[0-9]+/] matched at the very beginning of [s]. *)
Definition match_here (s : chars) : option chars :=
  match s with
  | ch :: r =>
      if is_dollar ch then
        match digits_prefix r with
        | [] => None
        | d :: ds => Some (ch :: d :: ds)
        end
      else None
  | [] => None
  end.

Definition shift (n : nat) (found : option (nat * chars)) : option (nat * chars) :=
  match found with
  | Some (i, m) => Some (n + i, m)
  | None => None
  end.

(** The leftmost match in [s]: its offset and its text. *)
Fixpoint search (s : chars) : option (nat * chars) :=
  match match_here s with
  | Some m => Some (0, m)
  | None =>
      match s with
      | [] => None
      | _ :: r => shift 1 (search r)
      end
  end.

(** [reg.exec(str)] for the global expression, started at [lastIndex]
    (clamped at zero as [ToLength] does): no match when [lastIndex] lies
    beyond the end; otherwise the leftmost match from there on, as
    [(match.index, match[0])]. *)
Definition reg_exec (str : chars) (lastIndex : Z) : option (nat * chars) :=
  let start := Z.to_nat lastIndex in
  if (List.length str <? start)%nat then None
  else shift start (search (skipn start str)).

Fixpoint is_prefix (p s : chars) : bool :=
  match p, s with
  | [], _ => true
  | _ :: _, [] => false
  | a :: p', b :: s' => Ascii.eqb a b && is_prefix p' s'
  end.

(** [str.indexOf(p)] *)
Fixpoint index_of (p s : chars) : option nat :=
  if is_prefix p s then Some 0
  else match s with
       | [] => None
       | _ :: r => option_map S (index_of p r)
       end.

(** The replacement text of [String.prototype.replace] for a string
    pattern (no capture groups): [$$], [$&], [$`] and [$'] are expanded,
    everything else is literal. *)
Fixpoint substitution (replacement matched before after : chars) : chars :=
  match replacement with
  | [] => []
  | ch :: r =>
      if is_dollar ch then
        match r with
        | next :: r' =>
            if Ascii.eqb next "$"%char then "$"%char :: substitution r' matched before after
            else if Ascii.eqb next "&"%char then (matched ++ substitution r' matched before after)%list
            else if Ascii.eqb next "`"%char then (before ++ substitution r' matched before after)%list
            else if Ascii.eqb next "'"%char then (after ++ substitution r' matched before after)%list
            else ch :: substitution r matched before after
        | [] => [ch]
        end
      else ch :: substitution r matched before after
  end.

(** [str.replace(pattern, replacement)] with a string pattern: the first
    occurrence of [pattern] in [str], wherever it is, is replaced. *)
Definition js_replace (str pattern replacement : chars) : chars :=
  match index_of pattern str with
  | None => str
  | Some pos =>
      let before := firstn pos str in
      let after := skipn (pos + List.length pattern) str in
      (before ++ substitution replacement pattern before after ++ after)%list
  end.

(** The [while] loop of lines 250-259; [esc] is [this.escape].  The loop
    carries the text, [reg.lastIndex] and [index]. *)
Fixpoint render_loop (fuel : nat) (esc : JsValue -> chars)
    (vals : list JsValue) (text : chars) (lastIndex : Z) (index : nat)
  : option chars :=
  match fuel with
  | O => None
  | S fuel' =>
      match reg_exec text lastIndex with
      | None => Some text
      | Some (pos, m) =>
          let value := nth index vals JUndefined in
          let text' :=
            if (index <? List.length vals)%nat
            then js_replace text m (esc value) else text in
          let lastIndex' :=
            (Z.of_nat (pos + List.length m)
             + (Z.of_nat (List.length (esc value)) - Z.of_nat (List.length m)))%Z in
          render_loop fuel' esc vals text' lastIndex' (S index)
      end
  end.

(** [this.escape] on a connection that has its handle. *)
Definition escape_chars (cl : Client) (v : JsValue) : chars :=
  list_ascii_of_string (escapeLiteral cl (to_string v)).

(** [renderSQLQuery(sql, values)]; an absent argument is defaulted as
    [sql || ''] and [values || []] do.  Without a handle [this.escape]
    throws at the first match.  [None]: the fuel ran out. *)
Definition renderSQLQuery (fuel : nat) (sql : option string)
    (vals : option (list JsValue)) (c : Connection)
  : option (Completion string) :=
  let text := list_ascii_of_string
                (match sql with Some s => s | None => EmptyString end) in
  let vals := match vals with Some l => l | None => [] end in
  match connection c with
  | None =>
      match search text with
      | None => Some (Return (string_of_list_ascii text))
      | Some _ => Some (Throw (no_handle "escapeLiteral"))
      end
  | Some _ =>
      match render_loop fuel (escape_chars (client c)) vals text 0 0 with
      | Some result => Some (Return (string_of_list_ascii result))
      | None => None
      end
  end.

(** *** The renderer the specification describes *)

(** The first numbered placeholder of a text: what precedes it, the
    placeholder itself, what follows it. *)
Fixpoint first_placeholder (s : chars) : option (chars * chars * chars) :=
  match s with
  | [] => None
  | ch :: r =>
      match (if is_dollar ch then digits_prefix r else []) with
      | d :: ds => Some ([], ch :: d :: ds, skipn (List.length (d :: ds)) r)
      | [] =>
          match first_placeholder r with
          | Some (before, ph, after) => Some (ch :: before, ph, after)
          | None => None
          end
      end
  end.

(** Scanning left to right, the Nth placeholder met takes the escaped Nth
    value; once the values are used up the rest of the text is left as it
    is. *)
Fixpoint render_spec (esc : JsValue -> chars) (vals : list JsValue)
    (text : chars) : chars :=
  match vals with
  | [] => text
  | v :: more =>
      match first_placeholder text with
      | None => text
      | Some (before, _, after) =>
          (before ++ esc v ++ render_spec esc more after)%list
      end
  end.

(** The number of numbered placeholders in a text. *)
Fixpoint count_placeholders (s : chars) : nat :=
  match s with
  | [] => O
  | _ :: r =>
      (match match_here s with Some _ => 1 | None => 0 end
       + count_placeholders r)%nat
  end.

(* ===================================================================== *)
(** ** A concrete driver, for closed examples *)
(* ===================================================================== *)

Definition dquote : ascii := ascii_of_nat 34.
Definition squote : ascii := "'"%char.
Definition backslash : ascii := "\"%char.

Fixpoint double_char (q : ascii) (s : string) : string :=
  match s with
  | EmptyString => EmptyString
  | String ch r =>
      if Ascii.eqb ch q then String ch (String ch (double_char q r))
      else String ch (double_char q r)
  end.

Fixpoint has_char (q : ascii) (s : string) : bool :=
  match s with
  | EmptyString => false
  | String ch r => Ascii.eqb ch q || has_char q r
  end.

(** [Client.prototype.escapeIdentifier] of the [pg] package: double quotes
    around the name, embedded double quotes doubled. *)
Definition pg_escapeIdentifier (s : string) : string :=
  String dquote (double_char dquote s ++ String dquote EmptyString).

(** [Client.prototype.escapeLiteral] of the [pg] package: single quotes
    around the text, embedded single quotes and backslashes doubled, and
    the prefix [ E] when a backslash occurred. *)
Definition pg_escapeLiteral (s : string) : string :=
  let quoted :=
    String squote
      (double_char backslash (double_char squote s) ++ String squote EmptyString) in
  if has_char backslash s then " E" ++ quoted else quoted.

Definition no_config : Config :=
  mkConfig (JStr "localhost") JUndefined JUndefined JUndefined JUndefined.

(** A [pg] client that will report [connected] from [connect] and give
    the answers [script] to the statements it receives. *)
Definition pg_client (connected : option DriverError) (script : list Reply)
  : Client :=
  mkClient (with_defaults no_config) pg_escapeLiteral pg_escapeIdentifier
    connected script [] 0 [] [].

(** A freshly connected, pooled connection over such a client. *)
Definition live_connection (script : list Reply) : Connection :=
  mkConnection (Some pgClient) (pg_client None script)
    false false false false true None [] [].

(** The adapter before [driverConnect]: no handle yet. *)
Definition disconnected : Connection :=
  mkConnection None (pg_client None [])
    false false false false true None [] [].

Definition unique_violation : DriverError :=
  mkDriverError (JStr "23505")
    "duplicate key value violates unique constraint".

Definition select_1 : QueryContext :=
  mkQueryContext "SELECT 1" [] JUndefined None.

(* ===================================================================== *)
(** ** Facts about executeQuery *)
(* ===================================================================== *)

(** The state after the statement of [queryContext] went to the driver and
    the driver consumed one answer. *)
Definition sent (queryContext : QueryContext) (c : Connection) : Connection :=
  set_client
    (snd (client_query (sql queryContext) (values queryContext) (client c))) c.

Lemma executeQuery_step queryContext dontRetry c :
  executeQuery queryContext dontRetry c =
  match attempt queryContext dontRetry c with
  | (Settle o, c') => (o, c')
  | (Retry, c') => executeQuery queryContext true c'
  end.
Proof.
  funelim (executeQuery queryContext dontRetry c);
    match goal with E : attempt _ _ _ = _ |- _ => rewrite E end;
    reflexivity.
Qed.

Lemma attempt_answered queryContext dontRetry c h r rest :
  connection c = Some h ->
  answers (client c) = r :: rest ->
  attempt queryContext dontRetry c =
  (queryCallback queryContext dontRetry r, sent queryContext c).
Proof.
  intros Hc Ha. unfold attempt, sent, client_query.
  rewrite Hc, Ha. reflexivity.
Qed.

Lemma executeQuery_settles queryContext dontRetry c h r rest o :
  connection c = Some h ->
  answers (client c) = r :: rest ->
  queryCallback queryContext dontRetry r = Settle o ->
  executeQuery queryContext dontRetry c = (o, sent queryContext c).
Proof.
  intros Hc Ha Hq. rewrite executeQuery_step.
  rewrite (attempt_answered _ _ _ _ _ _ Hc Ha), Hq. reflexivity.
Qed.

Lemma executeQuery_retries queryContext c h r rest :
  connection c = Some h ->
  answers (client c) = r :: rest ->
  queryCallback queryContext false r = Retry ->
  executeQuery queryContext false c =
  executeQuery queryContext true (sent queryContext c).
Proof.
  intros Hc Ha Hq. rewrite executeQuery_step.
  rewrite (attempt_answered _ _ _ _ _ _ Hc Ha), Hq. reflexivity.
Qed.

Lemma executeQuery_no_handle queryContext dontRetry c :
  connection c = None ->
  executeQuery queryContext dontRetry c = (Rejected (no_handle "query"), c).
Proof.
  intros Hc. rewrite executeQuery_step. unfold attempt. rewrite Hc.
  reflexivity.
Qed.

Lemma queryCallback_retry_flag queryContext r :
  queryCallback queryContext true r <> Retry.
Proof.
  intros H. apply queryCallback_Retry in H. discriminate.
Qed.

(** What a query leaves alone: everything but the client and the
    in-flight slot. *)
Definition same_frame (c c' : Connection) : Prop :=
  connection c' = connection c /\ ended c' = ended c /\ killed c' = killed c
  /\ isTransaction c' = isTransaction c
  /\ transactionOpen c' = transactionOpen c /\ pooled c' = pooled c
  /\ settled c' = settled c /\ emitted c' = emitted c.

Lemma same_frame_refl c : same_frame c c.
Proof. repeat split. Qed.

Lemma same_frame_trans c1 c2 c3 :
  same_frame c1 c2 -> same_frame c2 c3 -> same_frame c1 c3.
Proof.
  unfold same_frame. intros (? & ? & ? & ? & ? & ? & ? & ?)
    (? & ? & ? & ? & ? & ? & ? & ?).
  repeat split; congruence.
Qed.

Lemma attempt_frame queryContext dontRetry c s c' :
  attempt queryContext dontRetry c = (s, c') -> same_frame c c'.
Proof.
  unfold attempt. destruct (connection c) eqn:Hc.
  - unfold client_query. destruct (hd_error (answers (client c)));
      intros H; injection H as _ <-; repeat split; simpl; congruence.
  - intros H. injection H as _ <-. apply same_frame_refl.
Qed.

(** With the retry flag set a single pass settles the promise. *)
Lemma executeQuery_retry_flag queryContext c :
  exists o, attempt queryContext true c = (Settle o, snd (attempt queryContext true c))
            /\ executeQuery queryContext true c
               = (o, snd (attempt queryContext true c)).
Proof.
  rewrite executeQuery_step.
  destruct (attempt queryContext true c) as [[o |] c'] eqn:E.
  - exists o. split; reflexivity.
  - apply attempt_Retry in E. discriminate.
Qed.

Lemma executeQuery_frame queryContext dontRetry c :
  same_frame c (snd (executeQuery queryContext dontRetry c)).
Proof.
  assert (Hflag : forall c0, same_frame c0 (snd (executeQuery queryContext true c0))).
  { intros c0. destruct (executeQuery_retry_flag queryContext c0) as (o & E & ->).
    simpl. exact (attempt_frame _ _ _ _ _ E). }
  destruct dontRetry; [apply Hflag |].
  rewrite executeQuery_step.
  destruct (attempt queryContext false c) as [[o |] c'] eqn:E.
  - exact (attempt_frame _ _ _ _ _ E).
  - eapply same_frame_trans; [exact (attempt_frame _ _ _ _ _ E) | apply Hflag].
Qed.

(** The statements a query hands to the driver: one per pass, at most two
    passes. *)
Lemma attempt_wire queryContext dontRetry c :
  wire (client (snd (attempt queryContext dontRetry c))) =
  match connection c with
  | None => wire (client c)
  | Some _ => (wire (client c) ++ [(sql queryContext, values queryContext)])%list
  end.
Proof.
  unfold attempt. destruct (connection c); [| reflexivity].
  unfold client_query. destruct (hd_error (answers (client c))); reflexivity.
Qed.

Lemma executeQuery_wire_bound queryContext dontRetry c :
  (List.length (wire (client (snd (executeQuery queryContext dontRetry c))))
   <= List.length (wire (client c)) + 2)%nat.
Proof.
  assert (Hflag : forall c0,
    (List.length (wire (client (snd (executeQuery queryContext true c0))))
     <= List.length (wire (client c0)) + 1)%nat).
  { intros c0. destruct (executeQuery_retry_flag queryContext c0) as (o & _ & ->).
    simpl. rewrite attempt_wire. destruct (connection c0);
      [rewrite length_app; simpl |]; lia. }
  destruct dontRetry; [specialize (Hflag c); lia |].
  rewrite executeQuery_step.
  pose proof (attempt_wire queryContext false c) as W.
  destruct (attempt queryContext false c) as [[o |] c'] eqn:E; simpl in *.
  - rewrite W. destruct (connection c); [rewrite length_app; simpl |]; lia.
  - specialize (Hflag c'). rewrite W in Hflag.
    destruct (connection c); [rewrite length_app in Hflag; simpl in Hflag |]; lia.
Qed.

(* ===================================================================== *)
(** ** C1: the unique-violation code on the three error paths *)
(* ===================================================================== *)

(** C1, as stated, fails on the connect path: a [connect] failure carrying
    code 23505 reaches the caller of [driverConnect] unchanged, not as a
    DuplicateKey error. *)
Lemma connect_passes_unique_violation_through :
  fst (driverConnect no_config
         (fun _ => pg_client (Some unique_violation) []) disconnected)
  = Some (Raw unique_violation)
  /\ fst (driverConnect no_config
            (fun _ => pg_client (Some unique_violation) []) disconnected)
     <> Some (DuplicateKeyError unique_violation).
Proof. split; [reflexivity | discriminate]. Qed.

(** C1, amended: a driver error carrying the unique-violation code is
    delivered as a DuplicateKey error on the query-execution path (whatever
    the context and the retry flag); the connect path and the asynchronous
    error listener translate only their own codes and deliver it
    unchanged. *)
Theorem unique_violation_by_path (e : DriverError) :
  code e = JStr "23505" ->
  (forall queryContext dontRetry c h rest,
      connection c = Some h ->
      answers (client c) = Failure e :: rest ->
      executeQuery queryContext dontRetry c
      = (Rejected (DuplicateKeyError e), sent queryContext c))
  /\ (forall config new_Client c,
         connectResult (new_Client (with_defaults config)) = Some e ->
         fst (driverConnect config new_Client c) = Some (Raw e))
  /\ (forall c h,
         connection c = Some h ->
         exists c', errorListener e c = Return c'
                    /\ emitted c' = (emitted c ++ [Raw e])%list).
Proof.
  intros Hcode. repeat split.
  - intros queryContext dontRetry c h rest Hc Ha.
    apply (executeQuery_settles _ _ _ _ _ _ _ Hc Ha).
    unfold queryCallback, queryErrorTranslate. rewrite Hcode. reflexivity.
  - intros config new_Client c Hr. unfold driverConnect. simpl.
    rewrite Hr. unfold connectCallback. rewrite Hcode. reflexivity.
  - intros c h Hc. unfold errorListener. rewrite Hc.
    eexists. split; [reflexivity |].
    unfold errorListenerTranslate. rewrite Hcode. simpl.
    unfold emit_error, base_on_error. simpl.
    destruct (inflight c) as [[q f] |]; reflexivity.
Qed.

Lemma unique_violation_by_path_witness :
  code unique_violation = JStr "23505"
  /\ fst (executeQuery select_1 false
            (live_connection [Failure unique_violation]))
     = Rejected (DuplicateKeyError unique_violation).
Proof.
  split; [reflexivity |].
  destruct (unique_violation_by_path unique_violation eq_refl) as [Hq _].
  rewrite (Hq select_1 false (live_connection [Failure unique_violation])
             pgClient [] eq_refl eq_refl).
  reflexivity.
Defined.

(* ===================================================================== *)
(** ** C2: the retry on a null result *)
(* ===================================================================== *)

Definition ast_query : QueryContext :=
  mkQueryContext "SELECT 1" [] (JObj [("select", JArr [JNum 1])]) None.

(** C2, as stated, fails for a context whose AST flag is set: the first
    attempt succeeds with [null], the call is not a retry, and
    [executeQuery] resolves with [null] after a single statement; it does
    not call itself again. *)
Lemma ast_null_result_is_not_retried :
  executeQuery ast_query false (live_connection [Success JNull; Success JNull])
  = (Resolved JNull, sent ast_query (live_connection [Success JNull; Success JNull]))
  /\ wire (client (snd (executeQuery ast_query false
                          (live_connection [Success JNull; Success JNull]))))
     = [(sql ast_query, values ast_query)].
Proof. split; reflexivity. Qed.

(** An [undefined] result is not retried either: [type.null] holds of
    [null] only. *)
Lemma undefined_result_is_not_retried :
  executeQuery select_1 false (live_connection [Success JUndefined; Success JNull])
  = (Rejected unexpected_return_value,
     sent select_1 (live_connection [Success JUndefined; Success JNull])).
Proof. reflexivity. Qed.

(** C2, amended: for a context whose AST flag is unset, a first attempt
    (not a retry) that succeeds with [null] makes [executeQuery] call
    itself once more with the retry flag set, after one statement went to
    the driver; if that second attempt yields anything but a plain object
    (null, undefined, an array, ...) the promise is rejected with the
    unexpected-return-value error after exactly two statements; with
    the retry flag set the callback never asks for another attempt, and no
    call of [executeQuery] ever hands more than two statements to the
    driver. *)
Theorem null_result_retried_once (queryContext : QueryContext)
    (c : Connection) (h : HandleRef) (rest : list Reply) :
  truthy (ast queryContext) = false ->
  connection c = Some h ->
  answers (client c) = Success JNull :: rest ->
  executeQuery queryContext false c
  = executeQuery queryContext true (sent queryContext c)
  /\ (forall data rest',
         rest = Success data :: rest' ->
         type_object data = false ->
         executeQuery queryContext false c
         = (Rejected unexpected_return_value,
            sent queryContext (sent queryContext c))
         /\ wire (client (snd (executeQuery queryContext false c)))
            = (wire (client c)
               ++ [(sql queryContext, values queryContext);
                   (sql queryContext, values queryContext)])%list)
  /\ (forall r, queryCallback queryContext true r <> Retry)
  /\ (forall dontRetry c0,
         List.length (wire (client (snd (executeQuery queryContext dontRetry c0))))
         <= List.length (wire (client c0)) + 2)%nat.
Proof.
  intros Hast Hc Ha.
  assert (Hretry : executeQuery queryContext false c
                   = executeQuery queryContext true (sent queryContext c)).
  { apply (executeQuery_retries _ _ _ _ _ Hc Ha).
    unfold queryCallback. rewrite Hast. reflexivity. }
  split; [exact Hretry |]. split.
  - intros data rest' -> Hobj.
    assert (Hsecond : executeQuery queryContext true (sent queryContext c)
                      = (Rejected unexpected_return_value,
                         sent queryContext (sent queryContext c))).
    { apply (executeQuery_settles _ _ _ h (Success data) rest').
      - exact Hc.
      - unfold sent, client_query. simpl. rewrite Ha. reflexivity.
      - unfold queryCallback. rewrite Hast, Hobj. reflexivity. }
    rewrite Hretry, Hsecond. split; [reflexivity |].
    simpl. rewrite <- app_assoc. reflexivity.
  - split; [apply queryCallback_retry_flag |].
    intros dontRetry c0. apply executeQuery_wire_bound.
Qed.

Lemma null_result_retried_once_witness :
  truthy (ast select_1) = false
  /\ connection (live_connection [Success JNull; Success JNull]) = Some pgClient
  /\ answers (client (live_connection [Success JNull; Success JNull]))
     = [Success JNull; Success JNull]
  /\ fst (executeQuery select_1 false (live_connection [Success JNull; Success JNull]))
     = Rejected unexpected_return_value.
Proof.
  split; [reflexivity |]. split; [reflexivity |]. split; [reflexivity |].
  destruct (null_result_retried_once select_1
              (live_connection [Success JNull; Success JNull]) pgClient
              [Success JNull] eq_refl eq_refl eq_refl) as (_ & H & _ & _).
  destruct (H JNull [] eq_refl eq_refl) as [-> _]. reflexivity.
Defined.

(** The other half of the retry scenario: a null first result followed by
    a well-formed SELECT result resolves with the rows of the second. *)
Lemma null_then_select_resolves :
  fst (executeQuery select_1 false
         (live_connection
            [Success JNull;
             Success (JObj [("command", JStr "SELECT");
                            ("rows", JArr [JObj [("n", JNum 1)]])])]))
  = Resolved (JArr [JObj [("n", JNum 1)]]).
Proof. reflexivity. Qed.

(* ===================================================================== *)
(** ** C6: shaping of the result by command tag *)
(* ===================================================================== *)

(** C6: for a context whose AST flag is unset and a successful result that
    is well formed, that is, accepted by [type.object] (a plain object
    that is not promise-like) with a string [command] and an array
    [rows]: a SELECT resolves with the array of rows, in the driver's
    order, and that is never null; an INSERT resolves with the first row
    if there is one and with [null] (not a rejection) if there is none;
    any other command resolves with the result object itself. *)
Theorem result_shaped_by_command (queryContext : QueryContext)
    (dontRetry : bool) (c : Connection) (h : HandleRef) (rest : list Reply)
    (props : list (string * JsValue)) (command : string)
    (rows : list JsValue) :
  truthy (ast queryContext) = false ->
  connection c = Some h ->
  answers (client c) = Success (JObj props) :: rest ->
  type_object (JObj props) = true ->
  lookup props "command" = JStr command ->
  lookup props "rows" = JArr rows ->
  fst (executeQuery queryContext dontRetry c)
  = Resolved (if command =? "SELECT" then JArr rows
              else if command =? "INSERT" then
                     match rows with
                     | first :: _ => first
                     | [] => JNull
                     end
              else JObj props)
  /\ (command = "SELECT" ->
      fst (executeQuery queryContext dontRetry c) <> Resolved JNull).
Proof.
  intros Hast Hc Ha Hobj Hcmd Hrows.
  assert (E : executeQuery queryContext dontRetry c
              = (Resolved (if command =? "SELECT" then JArr rows
                           else if command =? "INSERT" then
                                  match rows with
                                  | first :: _ => first
                                  | [] => JNull
                                  end
                           else JObj props), sent queryContext c)).
  { apply (executeQuery_settles _ _ _ _ _ _ _ Hc Ha).
    unfold queryCallback. rewrite Hast, Hobj.
    cbn [get_prop]. rewrite Hcmd, Hrows. cbn [strict_eq_str].
    destruct (command =? "SELECT"); [reflexivity |].
    destruct (command =? "INSERT"); [| reflexivity].
    destruct rows; reflexivity. }
  rewrite E. split; [reflexivity |].
  intros ->. simpl. discriminate.
Qed.

Definition insert_user : QueryContext :=
  mkQueryContext "INSERT INTO users (name) VALUES ($1) RETURNING *"
    [JStr "ada"] JUndefined None.

Definition inserted_row : JsValue := JObj [("id", JNum 7); ("name", JStr "ada")].

Lemma result_shaped_by_command_witness :
  truthy (ast insert_user) = false
  /\ type_object (JObj [("command", JStr "INSERT");
                        ("rows", JArr [inserted_row])]) = true
  /\ fst (executeQuery insert_user false
            (live_connection
               [Success (JObj [("command", JStr "INSERT");
                               ("rows", JArr [inserted_row])])]))
     = Resolved inserted_row.
Proof.
  split; [reflexivity |]. split; [reflexivity |].
  exact (proj1 (result_shaped_by_command insert_user false
                  (live_connection
                     [Success (JObj [("command", JStr "INSERT");
                                     ("rows", JArr [inserted_row])])])
                  pgClient [] _ "INSERT" [inserted_row]
                  eq_refl eq_refl eq_refl eq_refl eq_refl eq_refl)).
Defined.

(** What [type.object] refuses is not shaped: a result carrying [command]
    and [rows] but also functions as [then] and [catch] is rejected with
    the unexpected-return-value error. *)
Lemma promise_like_result_is_rejected :
  fst (executeQuery select_1 false
         (live_connection
            [Success (JObj [("command", JStr "SELECT"); ("rows", JArr []);
                            ("then", JFun "then"); ("catch", JFun "catch")])]))
  = Rejected unexpected_return_value.
Proof. reflexivity. Qed.

(* ===================================================================== *)
(** ** C10: AST-origin queries bypass shaping, retry and rejection *)
(* ===================================================================== *)

(** C10: when the context's AST flag is set, a successful execution
    resolves with exactly what the driver returned, [null] included, after
    a single statement; the callback never asks for a retry and never
    rejects with the unexpected-return-value error, whatever the driver
    answers. *)
Theorem ast_query_resolves_raw (queryContext : QueryContext) :
  truthy (ast queryContext) = true ->
  (forall dontRetry c h data rest,
      connection c = Some h ->
      answers (client c) = Success data :: rest ->
      executeQuery queryContext dontRetry c
      = (Resolved data, sent queryContext c))
  /\ (forall dontRetry r,
         queryCallback queryContext dontRetry r <> Retry
         /\ queryCallback queryContext dontRetry r
            <> Settle (Rejected unexpected_return_value)).
Proof.
  intros Hast. split.
  - intros dontRetry c h data rest Hc Ha.
    apply (executeQuery_settles _ _ _ _ _ _ _ Hc Ha).
    unfold queryCallback. rewrite Hast. reflexivity.
  - intros dontRetry [e | data]; unfold queryCallback.
    + unfold queryErrorTranslate.
      destruct (truthy (code e) && strict_eq_str (code e) "23505");
        split; discriminate.
    + rewrite Hast. split; discriminate.
Qed.

Lemma ast_query_resolves_raw_witness :
  truthy (ast ast_query) = true
  /\ executeQuery ast_query false (live_connection [Success JNull])
     = (Resolved JNull, sent ast_query (live_connection [Success JNull])).
Proof.
  split; [reflexivity |].
  exact (proj1 (ast_query_resolves_raw ast_query eq_refl) false
           (live_connection [Success JNull]) pgClient JNull [] eq_refl eq_refl).
Defined.

(* ===================================================================== *)
(** ** C9: escapeId throws *)
(* ===================================================================== *)

(** C9: for an input that is not a string, or is the empty string,
    [escapeId] throws (whatever the state of the connection); inside
    [lock] the exception leaves the method before any callback is
    called and before anything is queried, so the failure is not
    reported through the callback. *)
Theorem escapeId_throws_on_bad_input (input : JsValue) (c : Connection) :
  type_string input = false \/ input = JStr EmptyString ->
  escapeId input c
  = Throw (Error ("Cannot escape id «" ++ to_string input ++ "»!"))
  /\ lock JUndefined input (JStr "LOCK_WRITE") c
     = (Throw (Error ("Cannot escape id «" ++ to_string input ++ "»!")), c).
Proof.
  intros H.
  assert (E : escapeId input c
              = Throw (Error ("Cannot escape id «" ++ to_string input ++ "»!"))).
  { unfold escapeId. destruct H as [H | ->]; [rewrite H |]; reflexivity. }
  split; [exact E |].
  unfold lock. simpl. rewrite E. reflexivity.
Qed.

Lemma escapeId_throws_on_bad_input_witness :
  type_string (JNum 42) = false
  /\ escapeId (JNum 42) (live_connection [])
     = Throw (Error "Cannot escape id «42»!").
Proof.
  split; [reflexivity |].
  exact (proj1 (escapeId_throws_on_bad_input (JNum 42) (live_connection [])
                  (or_introl eq_refl))).
Defined.

(** On a live handle every non-empty string is escaped by the driver. *)
Lemma escapeId_string (name : string) (c : Connection) (h : HandleRef) :
  name <> EmptyString ->
  connection c = Some h ->
  escapeId (JStr name) c = Return (escapeIdentifier (client c) name).
Proof.
  intros Hn Hc. unfold escapeId. simpl. rewrite Hc.
  destruct name as [| ch r]; [congruence | reflexivity].
Qed.

(* ===================================================================== *)
(** ** C7: createTransaction *)
(* ===================================================================== *)

Lemma executeQuery_wire_prefix queryContext dontRetry c h :
  connection c = Some h ->
  exists tail,
    wire (client (snd (executeQuery queryContext dontRetry c)))
    = (wire (client c) ++ (sql queryContext, values queryContext) :: tail)%list.
Proof.
  intros Hc.
  assert (Hflag : forall c0, connection c0 = Some h ->
    wire (client (snd (executeQuery queryContext true c0)))
    = (wire (client c0) ++ [(sql queryContext, values queryContext)])%list).
  { intros c0 H0.
    destruct (executeQuery_retry_flag queryContext c0) as (o & _ & ->).
    simpl. rewrite attempt_wire, H0. reflexivity. }
  destruct dontRetry; [exists []; apply Hflag, Hc |].
  rewrite executeQuery_step.
  pose proof (attempt_wire queryContext false c) as W. rewrite Hc in W.
  destruct (attempt queryContext false c) as [[o |] c'] eqn:E; simpl in *.
  - exists []. exact W.
  - exists [(sql queryContext, values queryContext)].
    rewrite Hflag.
    + rewrite W, <- app_assoc. reflexivity.
    + destruct (attempt_frame _ _ _ _ _ E) as [-> _]. exact Hc.
Qed.

(** C7: on a connection whose [ended] or [killed] flag is set,
    [createTransaction] rejects at once with its "connection has ended"
    error and leaves the whole state, the driver included, untouched.
    Otherwise it sets [isTransaction] and [transactionOpen], removes the
    connection from the pool and runs the context [start transaction;],
    tagged with mode "transaction", through [query]; the flags are still
    in place afterwards and, with a handle present, that statement is what
    the driver receives next. *)
Theorem createTransaction_guard_and_begin (c : Connection) :
  (ended c = true \/ killed c = true ->
   createTransaction c
   = (Rejected (Error "Cannot start transaction, the connection has ended!"), c))
  /\ (ended c = false -> killed c = false ->
      createTransaction c
      = query begin_transaction
          (removeFromPool (set_transactionOpen true (set_isTransaction true c)))
      /\ sql begin_transaction = "start transaction;"
      /\ mode begin_transaction = Some "transaction"
      /\ isTransaction (snd (createTransaction c)) = true
      /\ transactionOpen (snd (createTransaction c)) = true
      /\ pooled (snd (createTransaction c)) = false
      /\ (forall h, connection c = Some h ->
          exists tail,
            wire (client (snd (createTransaction c)))
            = (wire (client c) ++ ("start transaction;", []) :: tail)%list)).
Proof.
  split.
  - intros H. unfold createTransaction.
    destruct H as [-> | ->]; [| rewrite orb_true_r]; reflexivity.
  - intros He Hk. unfold createTransaction. rewrite He, Hk. simpl.
    split; [reflexivity |]. split; [reflexivity |]. split; [reflexivity |].
    unfold query. simpl. rewrite He, Hk. simpl.
    set (c1 := removeFromPool (set_transactionOpen true (set_isTransaction true c))).
    destruct (executeQuery_frame begin_transaction false c1)
      as (_ & _ & _ & Ht & Ho & Hp & _).
    split; [exact Ht |]. split; [exact Ho |]. split; [exact Hp |].
    intros h Hc.
    exact (executeQuery_wire_prefix begin_transaction false c1 h Hc).
Qed.

Definition killed_connection : Connection :=
  set_killed true (set_connection None (live_connection [])).

Lemma createTransaction_guard_and_begin_witness :
  (killed killed_connection = true
   /\ fst (createTransaction killed_connection)
      = Rejected (Error "Cannot start transaction, the connection has ended!"))
  /\ (ended (live_connection [Success (JObj [("command", JStr "START")])]) = false
      /\ killed (live_connection [Success (JObj [("command", JStr "START")])]) = false
      /\ pooled (snd (createTransaction
                        (live_connection [Success (JObj [("command", JStr "START")])])))
         = false).
Proof.
  split.
  - split; [reflexivity |].
    rewrite (proj1 (createTransaction_guard_and_begin killed_connection)
               (or_intror eq_refl)).
    reflexivity.
  - split; [reflexivity |]. split; [reflexivity |].
    exact (proj1 (proj2 (proj2 (proj2 (proj2 (proj2
             (proj2 (createTransaction_guard_and_begin
                       (live_connection [Success (JObj [("command", JStr "START")])]))
                eq_refl eq_refl))))))).
Defined.

(* ===================================================================== *)
(** ** C3: an asynchronous driver error while a query is pending *)
(* ===================================================================== *)

(** Queries attempted one after the other on the same connection. *)
Fixpoint query_all (qs : list QueryContext) (c : Connection)
  : list Outcome * Connection :=
  match qs with
  | [] => ([], c)
  | q :: more =>
      let '(o, c1) := query q c in
      let '(os, c2) := query_all more c1 in
      (o :: os, c2)
  end.

Lemma queryCallback_not_Pending queryContext dontRetry r :
  queryCallback queryContext dontRetry r <> Settle Pending.
Proof.
  unfold queryCallback. destruct r as [e | data]; [discriminate |].
  destruct (truthy (ast queryContext)); [discriminate |].
  destruct (type_object data).
  - destruct (strict_eq_str _ "SELECT"); [discriminate |].
    destruct (strict_eq_str _ "INSERT"); discriminate.
  - destruct (negb dontRetry && type_null data); discriminate.
Qed.

Lemma attempt_Pending queryContext dontRetry c c' :
  attempt queryContext dontRetry c = (Settle Pending, c') ->
  connection c' = Some pgClient
  /\ inflight c' = Some (queryContext, dontRetry).
Proof.
  unfold attempt. destruct (connection c) as [[] |] eqn:Hc; [| discriminate].
  unfold client_query. destruct (hd_error (answers (client c))) as [r |].
  - intros H. injection H as H _.
    destruct (queryCallback_not_Pending _ _ _ H).
  - intros H. injection H as <-. simpl. rewrite Hc. split; reflexivity.
Qed.

Lemma executeQuery_Pending queryContext dontRetry c c' :
  executeQuery queryContext dontRetry c = (Pending, c') ->
  connection c' = Some pgClient
  /\ exists flag, inflight c' = Some (queryContext, flag).
Proof.
  assert (Hflag : forall c0,
    executeQuery queryContext true c0 = (Pending, c') ->
    connection c' = Some pgClient
    /\ exists flag, inflight c' = Some (queryContext, flag)).
  { intros c0 H.
    destruct (executeQuery_retry_flag queryContext c0) as (o & E & E').
    rewrite E' in H. injection H as -> <-.
    destruct (attempt_Pending _ _ _ _ E) as [H1 H2].
    split; [exact H1 | exists true; exact H2]. }
  destruct dontRetry; [apply Hflag |].
  rewrite executeQuery_step.
  destruct (attempt queryContext false c) as [[o |] c1] eqn:E.
  - intros H. injection H as -> ->.
    destruct (attempt_Pending _ _ _ _ E) as [H1 H2].
    split; [exact H1 | exists false; exact H2].
  - apply Hflag.
Qed.

(** C3: let a query be pending (the driver has taken the statement and
    not answered) when the handle emits ['error'].  The listener then
    settles that query as rejected with the translated error, the
    connection is Killed, out of the pool and without a handle, the
    handle was told to end and received no further statement; and every
    query attempted afterwards, however many, is rejected at once while
    neither the connection nor the driver changes.  Even [executeQuery]
    called directly rejects without reaching the driver, the handle being
    gone, and [createTransaction] rejects as well. *)
Theorem async_error_kills_pending_query (c0 c : Connection)
    (q : QueryContext) (err : DriverError) :
  query q c0 = (Pending, c) ->
  exists c',
    errorListener err c = Return c'
    /\ settled c' = (settled c ++ [(q, Rejected (errorListenerTranslate err))])%list
    /\ inflight c' = None
    /\ killed c' = true /\ pooled c' = false /\ connection c' = None
    /\ wire (client c') = wire (client c)
    /\ endRequests (client c') = S (endRequests (client c))
    /\ (forall qs,
           query_all qs c' = (map (fun _ => Rejected connection_ended) qs, c'))
    /\ (forall q' dontRetry,
           executeQuery q' dontRetry c' = (Rejected (no_handle "query"), c'))
    /\ createTransaction c'
       = (Rejected (Error "Cannot start transaction, the connection has ended!"),
          c').
Proof.
  unfold query. destruct (ended c0 || killed c0); [discriminate |].
  intros H. destruct (executeQuery_Pending _ _ _ _ H) as (Hc & flag & Hq).
  unfold errorListener. rewrite Hc.
  eexists. split; [reflexivity |].
  unfold emit_error, base_on_error, end_with. simpl. rewrite Hq. simpl.
  repeat (split; [reflexivity |]).
  split.
  - induction qs as [| q1 more IH]; [reflexivity |].
    simpl. unfold query at 1. simpl. rewrite orb_true_r.
    simpl in IH. rewrite IH. reflexivity.
  - split.
    + intros q' dontRetry. apply executeQuery_no_handle. reflexivity.
    + unfold createTransaction. simpl. rewrite orb_true_r. reflexivity.
Qed.

Definition connection_reset : DriverError :=
  mkDriverError (JStr "ECONNRESET") "read ECONNRESET".

Lemma async_error_kills_pending_query_witness :
  query select_1 (live_connection [])
  = (Pending, set_inflight (Some (select_1, false))
                (sent select_1 (live_connection [])))
  /\ exists c',
       errorListener connection_reset
         (set_inflight (Some (select_1, false))
            (sent select_1 (live_connection []))) = Return c'
       /\ settled c'
          = [(select_1, Rejected (FailedToConnectError connection_reset))]
       /\ killed c' = true
       /\ fst (query select_1 c') = Rejected connection_ended.
Proof.
  split; [reflexivity |].
  destruct (async_error_kills_pending_query (live_connection [])
              (set_inflight (Some (select_1, false))
                 (sent select_1 (live_connection [])))
              select_1 connection_reset eq_refl)
    as (c' & E & Hs & _ & Hk & _ & _ & _ & _ & Hall & _ & _).
  exists c'. split; [exact E |]. split; [exact Hs |]. split; [exact Hk |].
  specialize (Hall [select_1]). simpl in Hall.
  destruct (query select_1 c') as [o c2]. simpl.
  injection Hall as -> _. reflexivity.
Defined.

(* ===================================================================== *)
(** ** C5: lock *)
(* ===================================================================== *)

(** The two supported modes produce the exact statement and send it
    through [query]. *)
Lemma lock_supported_mode (schema : option string) (table lockType phrase : string)
    (c : Connection) (h : HandleRef) :
  connection c = Some h ->
  table <> EmptyString ->
  schema <> Some EmptyString ->
  (lockType, phrase) = ("LOCK_WRITE", "SHARE ROW EXCLUSIVE")
  \/ (lockType, phrase) = ("LOCK_EXCLUSIVE", "ACCESS EXCLUSIVE") ->
  lock (match schema with Some s => JStr s | None => JUndefined end)
       (JStr table) (JStr lockType) c
  = (Return (fst (query (context_of_sql
       ("LOCK TABLE "
        ++ match schema with
           | Some s => escapeIdentifier (client c) s ++ "."
           | None => EmptyString
           end
        ++ escapeIdentifier (client c) table
        ++ " IN " ++ phrase ++ " MODE;")) c)),
     snd (query (context_of_sql
       ("LOCK TABLE "
        ++ match schema with
           | Some s => escapeIdentifier (client c) s ++ "."
           | None => EmptyString
           end
        ++ escapeIdentifier (client c) table
        ++ " IN " ++ phrase ++ " MODE;")) c)).
Proof.
  intros Hc Ht Hs Hm.
  assert (Hp : lookup lockModes (to_string (JStr lockType)) = JStr phrase).
  { destruct Hm as [Hm | Hm]; injection Hm as -> ->; reflexivity. }
  assert (Hphrase : truthy (JStr phrase) = true).
  { destruct Hm as [Hm | Hm]; injection Hm as _ ->; reflexivity. }
  unfold lock. rewrite Hp, Hphrase. simpl negb. cbv iota.
  rewrite (escapeId_string table c h Ht Hc).
  destruct schema as [s |].
  - assert (Hs' : s <> EmptyString) by congruence.
    rewrite (escapeId_string s c h Hs' Hc).
    replace (truthy (JStr s)) with true
      by (destruct s; [congruence | reflexivity]).
    simpl to_string.
    destruct (query _ c) as [o c']. reflexivity.
  - simpl. destruct (query _ c) as [o c']. reflexivity.
Qed.

(** A mode that is neither a key of [lockModes] nor of the prototype is
    refused through the callback, and nothing else happens. *)
Lemma lock_unknown_mode (schema table lockType : JsValue) (c : Connection) :
  assoc (to_string lockType) lockModes = None ->
  assoc (to_string lockType) Object_prototype = None ->
  lock schema table lockType c
  = (Return (Rejected (Error ("Invalid or not supported lock type «"
                              ++ to_string lockType ++ "»!"))), c).
Proof.
  intros H1 H2. unfold lock, lookup. rewrite H1, H2. reflexivity.
Qed.

(** C5, where the code departs from it: the mode value "constructor" is
    not a supported lock mode, yet [lockModes[lockType]] finds the
    inherited [Object] function, the guard of line 119 lets it pass and
    a LOCK statement naming that function goes to the driver. *)
Lemma lock_accepts_inherited_key :
  lookup lockModes "constructor" = JFun "Object"
  /\ wire (client (snd (lock JUndefined (JStr "accounts") (JStr "constructor")
                          (live_connection []))))
     = [("LOCK TABLE " ++ pg_escapeIdentifier "accounts"
         ++ " IN function Object() { [native code] } MODE;", [])]
  /\ fst (lock JUndefined (JStr "accounts") (JStr "constructor")
            (live_connection []))
     <> Return (Rejected (Error "Invalid or not supported lock type «constructor»!")).
Proof. split; [reflexivity |]. split; [reflexivity | discriminate]. Qed.

(* ===================================================================== *)
(** ** C8: end *)
(* ===================================================================== *)

(** The hook itself has no guard: without a handle it throws.  The guard
    against a killed connection is the inherited method's. *)
Lemma endConnection_needs_handle (callback : nat) (c : Connection) :
  connection c = None ->
  endConnection callback c = Throw (no_handle "once").
Proof. intros H. unfold endConnection. rewrite H. reflexivity. Qed.

(** C8: on a connection that is not killed and has its handle, [end]
    requests the close of the handle and registers the callback for the
    handle's ['end'] event; at that point the callback has not run and
    the connection is not yet Ended, no statement, [end()] request or
    registration on the handle makes the callback run, and when the
    handle confirms termination the callback runs and the connection is
    Ended.  On a connection that is already Killed, in particular after
    the ['error'] listener has run, [end] returns normally and changes
    nothing. *)
Theorem end_waits_for_handle_and_tolerates_kill (c : Connection)
    (callback : nat) :
  (killed c = false -> forall h, connection c = Some h ->
     exists c',
       end_ callback c = Return c'
       /\ endRequests (client c') = S (endRequests (client c))
       /\ endListeners (client c') = (endListeners (client c) ++ [callback])%list
       /\ endCallbacksRun (client c') = endCallbacksRun (client c)
       /\ ended c' = ended c
       /\ (forall s vs cb,
              endCallbacksRun (snd (client_query s vs (client c')))
              = endCallbacksRun (client c)
              /\ endCallbacksRun (client_end (client c'))
                 = endCallbacksRun (client c)
              /\ endCallbacksRun (client_once_end cb (client c'))
                 = endCallbacksRun (client c))
       /\ endCallbacksRun (client (handle_confirms_end c'))
          = (endCallbacksRun (client c) ++ endListeners (client c)
             ++ [callback])%list
       /\ ended (handle_confirms_end c') = true)
  /\ (killed c = true -> end_ callback c = Return c)
  /\ (forall err c',
         errorListener err c = Return c' ->
         killed c' = true /\ end_ callback c' = Return c').
Proof.
  split; [| split].
  - intros Hk h Hc. unfold end_, endConnection. rewrite Hk, Hc.
    eexists. split; [reflexivity |]. simpl.
    repeat (split; [reflexivity |]). split; [| split; reflexivity].
    intros s vs cb. repeat split.
  - intros Hk. unfold end_. rewrite Hk. reflexivity.
  - intros err c' H. unfold errorListener in H.
    destruct (connection c); [| discriminate].
    injection H as <-. split; reflexivity.
Qed.

Lemma end_waits_for_handle_and_tolerates_kill_witness :
  (killed (live_connection []) = false
   /\ connection (live_connection []) = Some pgClient
   /\ exists c',
        end_ 7 (live_connection []) = Return c'
        /\ endCallbacksRun (client c') = []
        /\ endCallbacksRun (client (handle_confirms_end c')) = [7])
  /\ (killed killed_connection = true
      /\ end_ 7 killed_connection = Return killed_connection).
Proof.
  split.
  - split; [reflexivity |]. split; [reflexivity |].
    destruct (proj1 (end_waits_for_handle_and_tolerates_kill
                       (live_connection []) 7) eq_refl pgClient eq_refl)
      as (c' & E & _ & _ & Hrun & _ & _ & Hend & _).
    exists c'. split; [exact E |]. split; [exact Hrun | exact Hend].
  - split; [reflexivity |].
    exact (proj1 (proj2 (end_waits_for_handle_and_tolerates_kill
                           killed_connection 7)) eq_refl).
Defined.

(* ===================================================================== *)
(** ** C4: the renderer against the specification *)
(* ===================================================================== *)

Open Scope list_scope.

(** *** Placeholders and the search for them *)

Definition starts_with_digit (s : chars) : bool :=
  match s with
  | ch :: _ => is_digit ch
  | [] => false
  end.

Definition no_dollar (s : chars) : bool := forallb (fun ch => negb (is_dollar ch)) s.

(** [clean p d]: no placeholder begins inside [p], where [d] tells whether
    the text that follows [p] begins with a digit. *)
Fixpoint clean (p : chars) (d : bool) : bool :=
  match p with
  | [] => true
  | ch :: r =>
      negb (is_dollar ch && match r with
                            | next :: _ => is_digit next
                            | [] => d
                            end)
      && clean r d
  end.

Lemma is_dollar_not_digit ch : is_dollar ch = true -> is_digit ch = false.
Proof.
  unfold is_dollar. intros H. apply Ascii.eqb_eq in H. subst ch. reflexivity.
Qed.

Lemma digits_prefix_split s :
  s = digits_prefix s ++ skipn (List.length (digits_prefix s)) s
  /\ starts_with_digit (skipn (List.length (digits_prefix s)) s) = false
  /\ forallb is_digit (digits_prefix s) = true.
Proof.
  induction s as [| ch r IH]; simpl; [repeat split |].
  destruct (is_digit ch) eqn:E; simpl.
  - destruct IH as (IH1 & IH2 & IH3). rewrite E, IH3.
    repeat split; [f_equal; exact IH1 | exact IH2].
  - rewrite E. repeat split.
Qed.

Lemma digits_prefix_nil s :
  digits_prefix s = [] <-> starts_with_digit s = false.
Proof.
  destruct s as [| ch r]; simpl; [tauto |].
  destruct (is_digit ch); split; intros; congruence.
Qed.

Lemma digits_no_dollar ds :
  forallb is_digit ds = true -> no_dollar ds = true.
Proof.
  induction ds as [| d r IH]; simpl; [reflexivity |].
  intros H. apply andb_prop in H. destruct H as [Hd Hr].
  rewrite (IH Hr), andb_true_r.
  destruct (is_dollar d) eqn:E; [| reflexivity].
  apply is_dollar_not_digit in E. congruence.
Qed.

(** The shape of a match: a dollar sign, at least one digit, only digits,
    and no digit right after it. *)
Lemma match_here_split s m :
  match_here s = Some m ->
  exists d ds rest,
    m = "$"%char :: d :: ds
    /\ s = m ++ rest
    /\ forallb is_digit (d :: ds) = true
    /\ starts_with_digit rest = false.
Proof.
  destruct s as [| ch r]; simpl; [discriminate |].
  destruct (is_dollar ch) eqn:E; [| discriminate].
  apply Ascii.eqb_eq in E. subst ch.
  destruct (digits_prefix_split r) as (H1 & H2 & H3).
  destruct (digits_prefix r) as [| d ds] eqn:Ed; [discriminate |].
  intros H. injection H as <-.
  exists d, ds, (skipn (List.length (d :: ds)) r).
  repeat split; [| exact H3 | exact H2].
  simpl. f_equal. exact H1.
Qed.

Lemma match_here_None ch r :
  match_here (ch :: r) = None <->
  is_dollar ch && starts_with_digit r = false.
Proof.
  simpl. destruct (is_dollar ch); simpl.
  - rewrite <- digits_prefix_nil.
    destruct (digits_prefix r); split; intros; congruence.
  - tauto.
Qed.

Lemma starts_with_digit_app p q :
  starts_with_digit (p ++ q)
  = match p with next :: _ => is_digit next | [] => starts_with_digit q end.
Proof. destruct p; reflexivity. Qed.

Lemma shift_shift a b found : shift a (shift b found) = shift (a + b) found.
Proof. destruct found as [[i m] |]; simpl; [f_equal; f_equal; lia | reflexivity]. Qed.

Lemma shift_0 found : shift 0 found = found.
Proof. destruct found as [[i m] |]; reflexivity. Qed.

(** Nothing is found inside a clean stretch. *)
Lemma search_clean p q :
  clean p (starts_with_digit q) = true ->
  search (p ++ q) = shift (List.length p) (search q).
Proof.
  induction p as [| ch r IH]; intros H.
  - simpl. rewrite shift_0. reflexivity.
  - simpl in H. apply andb_prop in H. destruct H as [Hch Hr].
    assert (Hm : match_here (ch :: r ++ q) = None).
    { apply match_here_None. rewrite starts_with_digit_app.
      apply negb_true_iff in Hch. exact Hch. }
    change ((ch :: r) ++ q) with (ch :: r ++ q).
    change (search (ch :: r ++ q))
      with (match match_here (ch :: r ++ q) with
            | Some m => Some (0, m)
            | None => shift 1 (search (r ++ q))
            end).
    rewrite Hm, (IH Hr), shift_shift. reflexivity.
Qed.

Lemma clean_weaken p d : clean p true = true -> clean p d = true.
Proof.
  induction p as [| ch r IH]; simpl; [reflexivity |].
  intros H. apply andb_prop in H. destruct H as [Hch Hr].
  rewrite (IH Hr), andb_true_r.
  destruct r; [| exact Hch].
  destruct (is_dollar ch); [discriminate | reflexivity].
Qed.

Lemma clean_app p q d :
  clean (p ++ q) d
  = clean p (match q with next :: _ => is_digit next | [] => d end)
    && clean q d.
Proof.
  induction p as [| ch r IH]; simpl; [reflexivity |].
  rewrite IH, andb_assoc. f_equal. f_equal.
  destruct r; reflexivity.
Qed.

Lemma clean_no_dollar e d : no_dollar e = true -> clean e d = true.
Proof.
  induction e as [| ch r IH]; simpl; [reflexivity |].
  intros H. apply andb_prop in H. destruct H as [Hch Hr].
  rewrite (IH Hr), andb_true_r.
  apply negb_true_iff in Hch. rewrite Hch. reflexivity.
Qed.

(** Where the leftmost match lies: after a clean stretch. *)
Lemma search_split s i m :
  search s = Some (i, m) ->
  exists before after,
    s = before ++ m ++ after
    /\ List.length before = i
    /\ clean before false = true
    /\ match_here (m ++ after) = Some m.
Proof.
  revert i. induction s as [| ch r IH]; intros i; [discriminate |].
  change (search (ch :: r))
    with (match match_here (ch :: r) with
          | Some m => Some (0, m)
          | None => shift 1 (search r)
          end).
  destruct (match_here (ch :: r)) as [m' |] eqn:Em.
  - intros H. injection H as <- <-.
    destruct (match_here_split _ _ Em) as (d & ds & rest & -> & Hs & _ & _).
    exists [], rest. rewrite <- Hs. repeat split. exact Em.
  - destruct (search r) as [[i' m'] |] eqn:Es; [| discriminate].
    simpl. intros H. injection H as <- <-.
    destruct (IH i' eq_refl) as (before & after & Hr & Hl & Hc & Hm).
    exists (ch :: before), after. subst r.
    repeat split; [simpl; f_equal; exact Hl | | exact Hm].
    simpl. rewrite Hc, andb_true_r.
    apply match_here_None in Em. rewrite starts_with_digit_app in Em.
    destruct before as [| b0 bs]; [| rewrite Em; reflexivity].
    rewrite andb_false_r. reflexivity.
Qed.

Lemma search_eq s :
  search s = match match_here s with
             | Some m => Some (0, m)
             | None => match s with
                       | [] => None
                       | _ :: r => shift 1 (search r)
                       end
             end.
Proof. destruct s; reflexivity. Qed.

Lemma index_of_eq p s :
  index_of p s = if is_prefix p s then Some 0
                 else match s with
                      | [] => None
                      | _ :: r => option_map S (index_of p r)
                      end.
Proof. destruct s; reflexivity. Qed.

(** The same split, with the parts named by position. *)
Lemma search_parts s i m :
  search s = Some (i, m) ->
  s = firstn i s ++ m ++ skipn (i + List.length m) s
  /\ clean (firstn i s) false = true
  /\ match_here (m ++ skipn (i + List.length m) s) = Some m
  /\ (i + List.length m <= List.length s)%nat
  /\ (2 <= List.length m)%nat.
Proof.
  intros H. destruct (search_split _ _ _ H) as (before & after & -> & <- & Hc & Hm).
  assert (E1 : firstn (List.length before) (before ++ m ++ after) = before).
  { rewrite firstn_app, Nat.sub_diag, firstn_all. simpl. apply app_nil_r. }
  assert (E2 : skipn (List.length before + List.length m) (before ++ m ++ after)
               = after).
  { rewrite app_assoc, <- length_app, skipn_app, Nat.sub_diag, skipn_all.
    reflexivity. }
  rewrite E1, E2. repeat split; try assumption.
  - rewrite !length_app. lia.
  - destruct (match_here_split _ _ Hm) as (d & ds & rest & -> & _). simpl. lia.
Qed.

(** *** The replacement *)

Lemma substitution_no_dollar e m before after :
  no_dollar e = true -> substitution e m before after = e.
Proof.
  induction e as [| ch r IH]; [reflexivity |].
  intros H. simpl in H. apply andb_prop in H. destruct H as [Hch Hr].
  apply negb_true_iff in Hch. simpl. rewrite Hch, (IH Hr). reflexivity.
Qed.

Lemma is_prefix_app p rest : is_prefix p (p ++ rest) = true.
Proof.
  induction p as [| a p' IH]; simpl; [reflexivity |].
  rewrite Ascii.eqb_refl. exact IH.
Qed.

(** The first occurrence of the matched text is the match itself, provided
    the match is the leftmost one of the whole text. *)
Lemma index_of_search s i m :
  search s = Some (i, m) -> index_of m s = Some i.
Proof.
  revert i. induction s as [| ch r IH]; intros i; [discriminate |].
  rewrite search_eq, index_of_eq.
  destruct (match_here (ch :: r)) as [m' |] eqn:Em.
  - intros H. injection H as <- <-.
    destruct (match_here_split _ _ Em) as (d & ds & rest & _ & Hs & _).
    rewrite Hs, is_prefix_app. reflexivity.
  - destruct (search r) as [[i' m'] |] eqn:Es; [| discriminate].
    simpl shift. intros H. injection H as <- <-.
    destruct (search_split _ _ _ Es) as (_ & after & _ & _ & _ & Hm).
    destruct (match_here_split _ _ Hm) as (d & ds & rest & -> & _ & Hd & _).
    apply match_here_None in Em.
    assert (Hp : is_prefix ("$"%char :: d :: ds) (ch :: r) = false).
    { cbn [is_prefix].
      destruct (Ascii.eqb_spec "$"%char ch) as [<- | _]; [| reflexivity].
      destruct r as [| next r']; [reflexivity |].
      cbn [is_prefix andb].
      destruct (Ascii.eqb_spec d next) as [<- | _]; [| reflexivity].
      exfalso. cbn [forallb] in Hd. apply andb_prop in Hd.
      destruct Hd as [Hd _].
      cbn [starts_with_digit] in Em. rewrite Hd in Em. discriminate. }
    rewrite Hp, (IH i' eq_refl). reflexivity.
Qed.

Lemma js_replace_leftmost s i m e :
  search s = Some (i, m) ->
  no_dollar e = true ->
  js_replace s m e = firstn i s ++ e ++ skipn (i + List.length m) s.
Proof.
  intros Hs He. unfold js_replace.
  rewrite (index_of_search _ _ _ Hs), (substitution_no_dollar _ _ _ _ He).
  reflexivity.
Qed.

(** *** The two readings of "first placeholder" agree *)

Lemma first_placeholder_search s :
  first_placeholder s
  = match search s with
    | Some (i, m) => Some (firstn i s, m, skipn (i + List.length m) s)
    | None => None
    end.
Proof.
  induction s as [| ch r IH]; [reflexivity |].
  rewrite search_eq. simpl first_placeholder. simpl match_here.
  destruct (is_dollar ch).
  - destruct (digits_prefix r) as [| d ds]; [| reflexivity].
    rewrite IH. destruct (search r) as [[i m] |]; reflexivity.
  - rewrite IH. destruct (search r) as [[i m] |]; reflexivity.
Qed.

Lemma render_spec_nothing_left esc vals text :
  search text = None -> render_spec esc vals text = text.
Proof.
  intros H. destruct vals; simpl; [reflexivity |].
  rewrite first_placeholder_search, H. reflexivity.
Qed.

Lemma render_spec_step esc v more text i m :
  search text = Some (i, m) ->
  render_spec esc (v :: more) text
  = firstn i text ++ esc v
    ++ render_spec esc more (skipn (i + List.length m) text).
Proof.
  intros H. simpl. rewrite first_placeholder_search, H. reflexivity.
Qed.

(** *** The loop *)

(** What the driver's quoting must guarantee for the loop to behave: an
    escaped literal begins with a character that is not a digit (so it is
    not empty). *)
Definition quoted (e : chars) : bool :=
  match e with
  | ch :: _ => negb (is_digit ch)
  | [] => false
  end.

Lemma reg_exec_at p r :
  reg_exec (p ++ r) (Z.of_nat (List.length p))
  = shift (List.length p) (search r).
Proof.
  unfold reg_exec. rewrite Nat2Z.id.
  replace (List.length (p ++ r) <? List.length p)%nat with false
    by (symmetry; apply Nat.ltb_ge; rewrite length_app; lia).
  rewrite skipn_app, Nat.sub_diag, skipn_all. reflexivity.
Qed.

Lemma reg_exec_bounds text li pos m :
  reg_exec text (Z.of_nat li) = Some (pos, m) ->
  (li <= pos)%nat /\ (pos + List.length m <= List.length text)%nat
  /\ (2 <= List.length m)%nat.
Proof.
  unfold reg_exec. rewrite Nat2Z.id.
  destruct (List.length text <? li)%nat eqn:E; [discriminate |].
  apply Nat.ltb_ge in E.
  destruct (search (skipn li text)) as [[i m'] |] eqn:Es; [| discriminate].
  simpl. intros H. injection H as <- <-.
  destruct (search_parts _ _ _ Es) as (_ & _ & _ & Hl & Hm).
  rewrite length_skipn in Hl. lia.
Qed.

Section Loop.

Variable esc : JsValue -> chars.
Variable vals : list JsValue.

Hypothesis esc_undefined : esc JUndefined <> [].
Hypothesis esc_no_dollar : forall v, In v vals -> no_dollar (esc v) = true.
Hypothesis esc_quoted : forall v, In v vals -> quoted (esc v) = true.

(** Once the values are used up the loop only moves on: the text stays
    as it is, and the loop ends because every round starts further to
    the right. *)
Lemma render_loop_exhausted fuel text li index :
  (List.length vals <= index)%nat ->
  (List.length text - li < fuel)%nat ->
  render_loop fuel esc vals text (Z.of_nat li) index = Some text.
Proof.
  revert li index. induction fuel as [| fuel IH]; intros li index Hi Hf;
    [lia |].
  simpl.
  destruct (reg_exec text (Z.of_nat li)) as [[pos m] |] eqn:E;
    [| reflexivity].
  destruct (reg_exec_bounds _ _ _ _ E) as (H1 & H2 & H3).
  replace (index <? List.length vals)%nat with false
    by (symmetry; apply Nat.ltb_ge; exact Hi).
  rewrite (nth_overflow vals JUndefined Hi).
  assert (He : (1 <= List.length (esc JUndefined))%nat).
  { destruct (esc JUndefined); [congruence | simpl; lia]. }
  replace (Z.of_nat (pos + List.length m)
           + (Z.of_nat (List.length (esc JUndefined))
              - Z.of_nat (List.length m)))%Z
    with (Z.of_nat (pos + List.length (esc JUndefined))) by lia.
  apply IH; lia.
Qed.

(** The invariant of the loop while values remain: the text is a part
    [done] in which no placeholder begins, up to [lastIndex], followed by
    a part [todo] of the original text; the result is [done] followed by
    the specified rendering of [todo] with the values not yet used. *)
Lemma render_loop_invariant fuel done todo index :
  clean done true = true ->
  (index <= List.length vals)%nat ->
  (List.length todo < fuel)%nat ->
  render_loop fuel esc vals (done ++ todo)
    (Z.of_nat (List.length done)) index
  = Some (done ++ render_spec esc (skipn index vals) todo).
Proof.
  revert done todo index.
  induction fuel as [| fuel IH]; intros done todo index Hc Hi Hf; [lia |].
  simpl. rewrite reg_exec_at.
  destruct (search todo) as [[i m] |] eqn:Es.
  2:{ simpl. rewrite (render_spec_nothing_left _ _ _ Es). reflexivity. }
  simpl shift. cbv iota beta.
  destruct (search_parts _ _ _ Es) as (Hsplit & Hclean & Hm & Hlen & Hm2).
  destruct (Nat.ltb_spec index (List.length vals)) as [Hlt | Hge].
  - (* a value is left for this placeholder *)
    set (v := nth index vals JUndefined).
    assert (Hin : In v vals) by (apply nth_In; exact Hlt).
    assert (Hskip : skipn index vals = v :: skipn (S index) vals).
    { clear -Hlt. subst v. revert index Hlt.
      induction vals as [| a l IHl]; intros index Hlt; simpl in *; [lia |].
      destruct index as [| k]; [reflexivity |].
      apply IHl. lia. }
    assert (Hwhole : search (done ++ todo)
                     = Some (List.length done + i, m)).
    { rewrite search_clean by (apply clean_weaken; exact Hc).
      rewrite Es. reflexivity. }
    rewrite (js_replace_leftmost _ _ _ _ Hwhole (esc_no_dollar v Hin)).
    rewrite firstn_app, firstn_all2 by lia.
    replace (List.length done + i - List.length done)%nat with i by lia.
    replace (skipn (List.length done + i + List.length m) (done ++ todo))
      with (skipn (i + List.length m) todo)
      by (rewrite skipn_app, (skipn_all2 done), app_nil_l by lia;
          f_equal; lia).
    set (before := firstn i todo) in *.
    set (after := skipn (i + List.length m) todo) in *.
    assert (Hb : List.length before = i).
    { subst before. apply firstn_length_le. lia. }
    replace ((done ++ before) ++ esc v ++ after)
      with ((done ++ before ++ esc v) ++ after)
      by (rewrite <- !app_assoc; reflexivity).
    replace (Z.of_nat (List.length done + i + List.length m)
             + (Z.of_nat (List.length (esc v)) - Z.of_nat (List.length m)))%Z
      with (Z.of_nat (List.length (done ++ before ++ esc v)))
      by (rewrite !length_app; lia).
    rewrite IH.
    + rewrite Hskip, (render_spec_step _ _ _ _ _ _ Es).
      fold before after. rewrite <- !app_assoc. reflexivity.
    + rewrite !clean_app, (clean_weaken done _ Hc).
      rewrite (clean_no_dollar _ _ (esc_no_dollar v Hin)).
      pose proof (esc_quoted v Hin) as Hq.
      destruct (esc v) as [| e0 er] eqn:Ee; [discriminate |].
      simpl in Hq. apply negb_true_iff in Hq. rewrite Hq, Hclean.
      reflexivity.
    + lia.
    + subst after. rewrite length_skipn. lia.
  - (* the values are used up *)
    assert (Hall : skipn index vals = [])
      by (apply skipn_all2; exact Hge).
    rewrite Hall. simpl render_spec.
    rewrite (nth_overflow vals JUndefined Hge).
    assert (He : (1 <= List.length (esc JUndefined))%nat).
    { destruct (esc JUndefined); [congruence | simpl; lia]. }
    replace (Z.of_nat (List.length done + i + List.length m)
             + (Z.of_nat (List.length (esc JUndefined))
                - Z.of_nat (List.length m)))%Z
      with (Z.of_nat (List.length done + i + List.length (esc JUndefined)))
      by lia.
    apply render_loop_exhausted; [lia |].
    rewrite length_app. lia.
Qed.

End Loop.

(** *** Counting what is left *)

Lemma count_clean p q :
  clean p (starts_with_digit q) = true ->
  count_placeholders (p ++ q) = count_placeholders q.
Proof.
  induction p as [| ch r IH]; intros H; [reflexivity |].
  simpl in H. apply andb_prop in H. destruct H as [Hch Hr].
  assert (Hm : match_here (ch :: r ++ q) = None).
  { apply match_here_None. rewrite starts_with_digit_app.
    apply negb_true_iff in Hch. exact Hch. }
  change (count_placeholders ((ch :: r) ++ q))
    with (match match_here (ch :: r ++ q) with Some _ => 1 | None => 0 end
          + count_placeholders (r ++ q))%nat.
  rewrite Hm, (IH Hr). reflexivity.
Qed.

Lemma count_none s : search s = None -> count_placeholders s = O.
Proof.
  induction s as [| ch r IH]; [reflexivity |].
  rewrite search_eq.
  change (count_placeholders (ch :: r))
    with (match match_here (ch :: r) with Some _ => 1 | None => 0 end
          + count_placeholders r)%nat.
  destruct (match_here (ch :: r)); [discriminate |].
  destruct (search r) as [[i m] |]; [discriminate |].
  intros _. rewrite IH; reflexivity.
Qed.

Lemma search_none s : count_placeholders s = O -> search s = None.
Proof.
  induction s as [| ch r IH]; [reflexivity |].
  rewrite search_eq.
  change (count_placeholders (ch :: r))
    with (match match_here (ch :: r) with Some _ => 1 | None => 0 end
          + count_placeholders r)%nat.
  destruct (match_here (ch :: r)); [discriminate |].
  simpl. intros H. rewrite (IH H). reflexivity.
Qed.

Lemma count_search s i m :
  search s = Some (i, m) ->
  count_placeholders s = S (count_placeholders (skipn (i + List.length m) s)).
Proof.
  intros H. destruct (search_parts _ _ _ H) as (Hs & Hc & Hm & _).
  set (after := skipn (i + List.length m) s) in *.
  rewrite Hs.
  destruct (match_here_split _ _ Hm) as (d & ds & rest & -> & Hr & Hd & Hn).
  rewrite count_clean by exact Hc.
  apply app_inv_head in Hr. subst rest.
  change (count_placeholders (("$"%char :: d :: ds) ++ after))
    with (match match_here (("$"%char :: d :: ds) ++ after) with
          | Some _ => 1 | None => 0 end
          + count_placeholders ((d :: ds) ++ after))%nat.
  rewrite Hm, count_clean; [reflexivity |].
  apply clean_no_dollar, digits_no_dollar. exact Hd.
Qed.

(** With at least as many values as placeholders, the specified rendering
    has no placeholder left. *)
Lemma render_spec_count esc vals :
  (forall v, In v vals -> no_dollar (esc v) = true) ->
  (forall v, In v vals -> quoted (esc v) = true) ->
  forall text,
    (count_placeholders text <= List.length vals)%nat ->
    count_placeholders (render_spec esc vals text) = O.
Proof.
  induction vals as [| v more IH]; intros Hd Hq text Hn.
  - simpl in *. lia.
  - destruct (search text) as [[i m] |] eqn:Es.
    + rewrite (render_spec_step _ _ _ _ _ _ Es).
      destruct (search_parts _ _ _ Es) as (_ & Hc & _).
      pose proof (Hq v (or_introl eq_refl)) as Hqv.
      pose proof (Hd v (or_introl eq_refl)) as Hdv.
      rewrite count_clean.
      * rewrite count_clean by (apply clean_no_dollar; exact Hdv).
        apply IH.
        -- intros w Hw. apply Hd. right. exact Hw.
        -- intros w Hw. apply Hq. right. exact Hw.
        -- rewrite (count_search _ _ _ Es) in Hn. simpl in Hn. lia.
      * destruct (esc v) as [| e0 er]; [discriminate |].
        simpl in Hqv. apply negb_true_iff in Hqv.
        simpl. rewrite Hqv. exact Hc.
    + rewrite (render_spec_nothing_left _ _ _ Es). apply count_none, Es.
Qed.

(** *** Strings and the [pg] quoting *)

Lemma length_list_ascii_of_string s :
  List.length (list_ascii_of_string s) = String.length s.
Proof. induction s as [| ch r IH]; simpl; [reflexivity | f_equal; exact IH]. Qed.

Lemma list_ascii_of_string_app s1 s2 :
  list_ascii_of_string (s1 ++ s2)%string
  = list_ascii_of_string s1 ++ list_ascii_of_string s2.
Proof. induction s1 as [| ch r IH]; simpl; [reflexivity | f_equal; exact IH]. Qed.

Lemma no_dollar_app a b : no_dollar (a ++ b) = no_dollar a && no_dollar b.
Proof. apply forallb_app. Qed.

Lemma double_char_no_dollar q s :
  has_char "$"%char s = false ->
  no_dollar (list_ascii_of_string (double_char q s)) = true.
Proof.
  induction s as [| ch r IH]; [reflexivity |].
  simpl. intros H. apply orb_false_iff in H. destruct H as [Hch Hr].
  assert (Hd : negb (is_dollar ch) = true)
    by (unfold is_dollar; rewrite Hch; reflexivity).
  destruct (ch =? q)%char; simpl; rewrite Hd, (IH Hr); reflexivity.
Qed.

Lemma double_char_keeps q s :
  has_char "$"%char s = false -> q <> "$"%char ->
  has_char "$"%char (double_char q s) = false.
Proof.
  intros H Hq. induction s as [| ch r IH]; [reflexivity |].
  simpl in H. apply orb_false_iff in H. destruct H as [Hch Hr].
  simpl. destruct (ch =? q)%char; simpl; rewrite Hch, (IH Hr); reflexivity.
Qed.

Lemma pg_escapeLiteral_no_dollar s :
  has_char "$"%char s = false ->
  no_dollar (list_ascii_of_string (pg_escapeLiteral s)) = true.
Proof.
  intros H. unfold pg_escapeLiteral.
  assert (Hq : no_dollar
                 (list_ascii_of_string
                    (String squote
                       (double_char backslash (double_char squote s)
                        ++ String squote EmptyString))) = true).
  { simpl. rewrite list_ascii_of_string_app, no_dollar_app.
    rewrite double_char_no_dollar; [reflexivity |].
    apply double_char_keeps; [exact H | discriminate]. }
  destruct (has_char backslash s); [| exact Hq].
  simpl in *. exact Hq.
Qed.

Lemma pg_escapeLiteral_quoted s :
  quoted (list_ascii_of_string (pg_escapeLiteral s)) = true.
Proof. unfold pg_escapeLiteral. destruct (has_char backslash s); reflexivity. Qed.

(** *** The claim *)

(** C4, as stated, fails.  A value whose text is itself a placeholder is
    inlined as such, so the result of [render("SELECT $1", ["$1"])] still
    contains the numbered placeholder [$1] although one value was
    supplied.  And a value containing the text of a later placeholder
    misleads [String.replace], which replaces the first occurrence of the
    matched text wherever it is: in ["$1 $2"] with the values ["$2"] and
    ["x"] the second value lands inside the first literal and the second
    placeholder stays. *)
Lemma render_leaves_placeholders :
  renderSQLQuery 10 (Some "SELECT $1"%string) (Some [JStr "$1"])
    (live_connection [])
  = Some (Return "SELECT '$1'"%string)
  /\ count_placeholders (list_ascii_of_string "SELECT '$1'") = 1%nat
  /\ renderSQLQuery 10 (Some "$1 $2"%string) (Some [JStr "$2"; JStr "x"])
       (live_connection [])
     = Some (Return "''x'' $2"%string)
  /\ string_of_list_ascii
       (render_spec (escape_chars (client (live_connection [])))
          [JStr "$2"; JStr "x"] (list_ascii_of_string "$1 $2"))
     = "'$2' 'x'"%string.
Proof. repeat split. Qed.

(** C4, amended: let the driver's quoting never produce a literal that
    begins with a digit, and let no escaped value contain a dollar sign.
    Then, given fuel beyond the length of the text, [renderSQLQuery]
    returns the text in which the Nth placeholder met from the left has
    been replaced by the escaped Nth value, whatever number the
    placeholder carries, and the placeholders beyond the number of values
    are left as they are; if the text has no more placeholders than there
    are values, no numbered placeholder remains in the result; and in
    every round that substitutes, the scan position left by the match is
    moved by the difference in length between the escaped value and the
    placeholder. *)
Theorem render_substitutes_in_scan_order (c : Connection) (h : HandleRef)
    (sql : string) (vals : list JsValue) (fuel : nat) :
  connection c = Some h ->
  (forall text,
      quoted (list_ascii_of_string (escapeLiteral (client c) text)) = true) ->
  (forall v, In v vals -> no_dollar (escape_chars (client c) v) = true) ->
  (String.length sql < fuel)%nat ->
  renderSQLQuery fuel (Some sql) (Some vals) c
  = Some (Return (string_of_list_ascii
                    (render_spec (escape_chars (client c)) vals
                       (list_ascii_of_string sql))))
  /\ ((count_placeholders (list_ascii_of_string sql) <= List.length vals)%nat ->
      search (render_spec (escape_chars (client c)) vals
                (list_ascii_of_string sql)) = None)
  /\ (forall rounds text lastIndex index pos m,
         reg_exec text lastIndex = Some (pos, m) ->
         (index < List.length vals)%nat ->
         render_loop (S rounds) (escape_chars (client c)) vals text
           lastIndex index
         = render_loop rounds (escape_chars (client c)) vals
             (js_replace text m
                (escape_chars (client c) (nth index vals JUndefined)))
             (Z.of_nat (pos + List.length m)
              + (Z.of_nat (List.length
                             (escape_chars (client c)
                                (nth index vals JUndefined)))
                 - Z.of_nat (List.length m)))%Z
             (S index)).
Proof.
  intros Hc Hq Hd Hf. split; [| split].
  - unfold renderSQLQuery. rewrite Hc.
    pose proof (render_loop_invariant (escape_chars (client c)) vals) as Hinv.
    specialize (Hinv
      ltac:(intros E; pose proof (Hq (to_string JUndefined)) as Q;
            unfold escape_chars in E; rewrite E in Q; discriminate)
      Hd
      ltac:(intros v _; apply Hq)
      fuel [] (list_ascii_of_string sql) O eq_refl (Nat.le_0_l _)).
    simpl in Hinv. rewrite Hinv; [reflexivity |].
    rewrite length_list_ascii_of_string. exact Hf.
  - intros Hn. apply search_none, render_spec_count.
    + exact Hd.
    + intros v _. apply Hq.
    + exact Hn.
  - intros rounds text lastIndex index pos m He Hi.
    apply Nat.ltb_lt in Hi. simpl. rewrite He, Hi. reflexivity.
Qed.

Lemma render_substitutes_in_scan_order_witness :
  renderSQLQuery 40 (Some "SELECT * FROM t WHERE a = $2 AND b = $1"%string)
    (Some [JStr "it's"; JNum 5]) (live_connection [])
  = Some (Return "SELECT * FROM t WHERE a = 'it''s' AND b = '5'"%string).
Proof.
  refine (eq_trans
            (proj1 (render_substitutes_in_scan_order (live_connection [])
                      pgClient "SELECT * FROM t WHERE a = $2 AND b = $1"
                      [JStr "it's"; JNum 5] 40 eq_refl _ _ _)) _).
  - intros text. apply pg_escapeLiteral_quoted.
  - intros v [<- | [<- | []]]; reflexivity.
  - simpl. lia.
  - reflexivity.
Defined.

(** Placeholders beyond the values supplied stay in the text. *)
Lemma render_leaves_surplus_placeholders :
  renderSQLQuery 20 (Some "$1, $2, $3"%string) (Some [JStr "a"])
    (live_connection [])
  = Some (Return "'a', $2, $3"%string).
Proof. reflexivity. Qed.

(* ===================================================================== *)
(** ** Further properties: connecting and the error translations *)
(* ===================================================================== *)

(** X1: the defaults of [driverConnect] (lines 45-46).  After them the
    port and the user name are always truthy: a falsy port (absent, [0],
    the empty string) becomes 5432 and a falsy user name becomes
    "postgres", while a truthy one is kept as given; host, password and
    database are never touched; and applying the defaults twice is the
    same as applying them once. *)
Theorem with_defaults_fills_port_and_user (config : Config) :
  port (with_defaults config)
  = (if truthy (port config) then port config else JNum 5432)
  /\ username (with_defaults config)
     = (if truthy (username config) then username config else JStr "postgres")
  /\ truthy (port (with_defaults config)) = true
  /\ truthy (username (with_defaults config)) = true
  /\ host (with_defaults config) = host config
  /\ password (with_defaults config) = password config
  /\ database (with_defaults config) = database config
  /\ with_defaults (with_defaults config) = with_defaults config.
Proof.
  destruct config as [h p u pw d]. unfold with_defaults. simpl.
  destruct (truthy p) eqn:Ep; simpl;
    destruct (truthy u) eqn:Eu; simpl;
    rewrite ?Ep, ?Eu; simpl; rewrite ?Ep, ?Eu; repeat split.
Qed.

(** The driver error a delivered error wraps or is. *)
Definition cause (e : JsError) : option DriverError :=
  match e with
  | Raw d | InvalidCredentialsError d | FailedToConnectError d
  | DuplicateKeyError d => Some d
  | Error _ | TypeError _ => None
  end.

(** X2: the connect callback (lines 61-67) and the ['error'] listener
    (lines 76-79) translate alike except for the code 28P01, which only
    the connect callback turns into InvalidCredentials; the query callback
    (line 171) never produces InvalidCredentials or FailedToConnect; and on
    all three paths the delivered error still carries the driver's own
    error. *)
Theorem translations_agree_and_keep_cause (e : DriverError) :
  connectCallback (Some e)
  = Some (if strict_eq_str (code e) "28P01" then InvalidCredentialsError e
          else errorListenerTranslate e)
  /\ (exists delivered,
         connectCallback (Some e) = Some delivered /\ cause delivered = Some e)
  /\ cause (errorListenerTranslate e) = Some e
  /\ cause (queryErrorTranslate e) = Some e
  /\ (forall d, queryErrorTranslate e <> InvalidCredentialsError d
                /\ queryErrorTranslate e <> FailedToConnectError d
                /\ errorListenerTranslate e <> InvalidCredentialsError d
                /\ errorListenerTranslate e <> DuplicateKeyError d).
Proof.
  unfold connectCallback, errorListenerTranslate, queryErrorTranslate.
  destruct (strict_eq_str (code e) "28P01");
    destruct (strict_eq_str (code e) "ECONNREFUSED");
    destruct (strict_eq_str (code e) "ENETUNREACH");
    destruct (strict_eq_str (code e) "ECONNRESET");
    destruct (strict_eq_str (code e) "EHOSTUNREACH");
    destruct (truthy (code e) && strict_eq_str (code e) "23505");
    (split; [reflexivity |]);
    (split; [eexists; split; reflexivity |]);
    (split; [reflexivity |]); (split; [reflexivity |]);
    intros d; repeat split; discriminate.
Qed.

(** X3: [driverConnect] (lines 49-70) installs the handle before it
    connects and never removes it: whatever [connect] reports, failure
    included, the adapter afterwards holds the new client with the
    defaulted options handed to the constructor, its flags are as before,
    and a query run on it reaches that client. *)
Theorem driverConnect_keeps_handle_on_failure (config : Config)
    (new_Client : Config -> Client) (c : Connection) :
  fst (driverConnect config new_Client c)
  = connectCallback (connectResult (new_Client (with_defaults config)))
  /\ connection (snd (driverConnect config new_Client c)) = Some pgClient
  /\ client (snd (driverConnect config new_Client c))
     = new_Client (with_defaults config)
  /\ ended (snd (driverConnect config new_Client c)) = ended c
  /\ killed (snd (driverConnect config new_Client c)) = killed c
  /\ pooled (snd (driverConnect config new_Client c)) = pooled c
  /\ (forall q dontRetry,
         exists tail,
           wire (client (snd (executeQuery q dontRetry
                                (snd (driverConnect config new_Client c)))))
           = wire (new_Client (with_defaults config))
             ++ (sql q, values q) :: tail).
Proof.
  unfold driverConnect. simpl. repeat (split; [reflexivity |]).
  intros q dontRetry.
  exact (executeQuery_wire_prefix q dontRetry
           (set_client (new_Client (with_defaults config))
              (set_connection (Some pgClient) c)) pgClient eq_refl).
Qed.

(** X4: the ['error'] listener (lines 74-93) works once.  It runs exactly
    on a connection that has its handle; it then asks the handle to end
    once, sends no statement, emits one ['error'] event with the
    translated error and drops the handle; a second ['error'] event finds
    no handle and the listener throws a TypeError at line 83. *)
Theorem errorListener_runs_once (first second : DriverError)
    (c c1 : Connection) :
  errorListener first c = Return c1 ->
  connection c = Some pgClient
  /\ connection c1 = None
  /\ endRequests (client c1) = S (endRequests (client c))
  /\ wire (client c1) = wire (client c)
  /\ answers (client c1) = answers (client c)
  /\ emitted c1 = emitted c ++ [errorListenerTranslate first]
  /\ errorListener second c1 = Throw (no_handle "end").
Proof.
  unfold errorListener at 1. destruct (connection c) as [[] |] eqn:Hc;
    [| discriminate].
  intros H. injection H as <-.
  unfold errorListener, end_with, emit_error, base_on_error. simpl.
  destruct (inflight c) as [[q f] |]; simpl; repeat split.
Qed.

Lemma errorListener_runs_once_witness :
  exists c1,
    errorListener connection_reset (live_connection []) = Return c1
    /\ errorListener unique_violation c1 = Throw (no_handle "end").
Proof.
  eexists. split; [reflexivity |].
  exact (proj2 (proj2 (proj2 (proj2 (proj2 (proj2
           (errorListener_runs_once connection_reset unique_violation
              (live_connection []) _ eq_refl))))))).
Defined.

(* ===================================================================== *)
(** ** Further properties: executeQuery *)
(* ===================================================================== *)

Lemma strict_eq_str_true v lit :
  strict_eq_str v lit = true <-> v = JStr lit.
Proof.
  destruct v; simpl; try (split; [discriminate | intros H; discriminate]).
  rewrite String.eqb_eq. split; [intros -> | intros H; injection H]; auto.
Qed.

Lemma type_null_true d : type_null d = true <-> d = JNull.
Proof. destruct d; simpl; split; intros H; try discriminate; reflexivity. Qed.

Lemma queryCallback_Retry_iff queryContext dontRetry r :
  queryCallback queryContext dontRetry r = Retry
  <-> dontRetry = false /\ truthy (ast queryContext) = false
      /\ r = Success JNull.
Proof.
  split.
  - unfold queryCallback. destruct r as [e | data]; [discriminate |].
    destruct (truthy (ast queryContext)); [discriminate |].
    destruct (type_object data) eqn:Eo.
    + destruct (strict_eq_str _ "SELECT"); [discriminate |].
      destruct (strict_eq_str _ "INSERT"); discriminate.
    + destruct dontRetry; [discriminate |]. simpl.
      destruct (type_null data) eqn:En; [| discriminate].
      apply type_null_true in En. subst data. repeat split.
  - intros (-> & Ha & ->). unfold queryCallback. rewrite Ha. reflexivity.
Qed.

Lemma queryCallback_unexpected_iff queryContext dontRetry r :
  queryCallback queryContext dontRetry r = Settle (Rejected unexpected_return_value)
  <-> exists data,
        r = Success data /\ truthy (ast queryContext) = false
        /\ type_object data = false
        /\ (dontRetry = true \/ type_null data = false).
Proof.
  split.
  - unfold queryCallback. destruct r as [e | data].
    + unfold queryErrorTranslate.
      destruct (truthy (code e) && strict_eq_str (code e) "23505"); discriminate.
    + destruct (truthy (ast queryContext)); [discriminate |].
      destruct (type_object data) eqn:Eo.
      * destruct (strict_eq_str _ "SELECT"); [discriminate |].
        destruct (strict_eq_str _ "INSERT"); discriminate.
      * intros H. exists data. repeat split; [exact Eo |].
        destruct dontRetry; [left; reflexivity |].
        destruct (type_null data); [discriminate | right; reflexivity].
  - intros (data & -> & Ha & Ho & Hn). unfold queryCallback.
    rewrite Ha, Ho. destruct Hn as [-> | ->]; [reflexivity |].
    rewrite andb_false_r. reflexivity.
Qed.

(** X5: a driver error on the query path (lines 171-173).  Whatever the
    context, AST-origin or not, and whatever the retry flag, the promise is
    rejected after that one statement: an error is never retried and never
    shaped.  The rejection is a DuplicateKey error exactly when the code is
    the string "23505"; any other code, a number 23505 or a network code
    included, is delivered as the driver raised it. *)
Theorem driver_error_rejects_without_retry (queryContext : QueryContext)
    (dontRetry : bool) (c : Connection) (h : HandleRef) (e : DriverError)
    (rest : list Reply) :
  connection c = Some h ->
  answers (client c) = Failure e :: rest ->
  executeQuery queryContext dontRetry c
  = (Rejected (queryErrorTranslate e), sent queryContext c)
  /\ wire (client (sent queryContext c))
     = wire (client c) ++ [(sql queryContext, values queryContext)]
  /\ answers (client (sent queryContext c)) = rest
  /\ (queryErrorTranslate e = DuplicateKeyError e <-> code e = JStr "23505")
  /\ (code e <> JStr "23505" -> queryErrorTranslate e = Raw e).
Proof.
  intros Hc Ha. split.
  { apply (executeQuery_settles _ _ _ _ _ _ _ Hc Ha). reflexivity. }
  split; [reflexivity |]. split; [simpl; rewrite Ha; reflexivity |].
  unfold queryErrorTranslate.
  destruct (strict_eq_str (code e) "23505") eqn:E.
  - apply strict_eq_str_true in E. rewrite E. simpl.
    split; [split; reflexivity | congruence].
  - rewrite andb_false_r. split; [split |]; intros H; try discriminate.
    + apply strict_eq_str_true in H. congruence.
    + reflexivity.
Qed.

Definition numeric_23505 : DriverError :=
  mkDriverError (JNum 23505) "code given as a number".

Lemma driver_error_rejects_without_retry_witness :
  connection (live_connection [Failure numeric_23505]) = Some pgClient
  /\ fst (executeQuery ast_query false (live_connection [Failure numeric_23505]))
     = Rejected (Raw numeric_23505).
Proof.
  split; [reflexivity |].
  rewrite (proj1 (driver_error_rejects_without_retry ast_query false
                    (live_connection [Failure numeric_23505]) pgClient
                    numeric_23505 [] eq_refl eq_refl)).
  reflexivity.
Defined.

(** Whether a call of [executeQuery] goes through the retry of line 195. *)
Definition retried (queryContext : QueryContext) (dontRetry : bool)
    (c : Connection) : bool :=
  negb dontRetry && negb (truthy (ast queryContext))
  && match answers (client c) with
     | Success JNull :: _ => true
     | _ => false
     end.

Lemma attempt_answers queryContext dontRetry c :
  answers (client (snd (attempt queryContext dontRetry c)))
  = match connection c with
    | None => answers (client c)
    | Some _ => tl (answers (client c))
    end.
Proof.
  unfold attempt. destruct (connection c); [| reflexivity].
  unfold client_query. destruct (hd_error (answers (client c))); reflexivity.
Qed.

(** X6: what [executeQuery] (lines 167-207) does to the driver and to the
    adapter, on a connection with its handle.  It hands the driver the
    context's statement with its values once, or twice when the call goes
    through the null-result retry, and nothing else; it uses up one answer
    per statement; and it leaves the handle, the [ended], [killed] and
    transaction flags, the pool membership and the emitted events as they
    were. *)
Theorem executeQuery_sends_once_or_twice (queryContext : QueryContext)
    (dontRetry : bool) (c : Connection) (h : HandleRef) :
  connection c = Some h ->
  wire (client (snd (executeQuery queryContext dontRetry c)))
  = wire (client c)
    ++ repeat (sql queryContext, values queryContext)
         (if retried queryContext dontRetry c then 2 else 1)
  /\ answers (client (snd (executeQuery queryContext dontRetry c)))
     = skipn (if retried queryContext dontRetry c then 2 else 1)
         (answers (client c))
  /\ connection (snd (executeQuery queryContext dontRetry c)) = Some h
  /\ ended (snd (executeQuery queryContext dontRetry c)) = ended c
  /\ killed (snd (executeQuery queryContext dontRetry c)) = killed c
  /\ isTransaction (snd (executeQuery queryContext dontRetry c))
     = isTransaction c
  /\ transactionOpen (snd (executeQuery queryContext dontRetry c))
     = transactionOpen c
  /\ pooled (snd (executeQuery queryContext dontRetry c)) = pooled c
  /\ emitted (snd (executeQuery queryContext dontRetry c)) = emitted c.
Proof.
  intros Hc.
  destruct (executeQuery_frame queryContext dontRetry c)
    as (F1 & F2 & F3 & F4 & F5 & F6 & _ & F8).
  rewrite Hc in F1.
  assert (Hw : wire (client (snd (executeQuery queryContext dontRetry c)))
               = wire (client c)
                 ++ repeat (sql queryContext, values queryContext)
                      (if retried queryContext dontRetry c then 2 else 1)
               /\ answers (client (snd (executeQuery queryContext dontRetry c)))
                  = skipn (if retried queryContext dontRetry c then 2 else 1)
                      (answers (client c))).
  { rewrite executeQuery_step.
    pose proof (attempt_wire queryContext dontRetry c) as W.
    pose proof (attempt_answers queryContext dontRetry c) as A.
    rewrite Hc in W, A.
    destruct (attempt queryContext dontRetry c) as [[o |] c1] eqn:E.
    - (* settled after one pass: no retry *)
      assert (Hr : retried queryContext dontRetry c = false).
      { unfold retried. unfold attempt in E. rewrite Hc in E.
        unfold client_query in E.
        destruct (answers (client c)) as [| r rest]; simpl in E.
        - apply andb_false_r.
        - injection E as E _.
          destruct (negb dontRetry && negb (truthy (ast queryContext))) eqn:G;
            [| reflexivity].
          apply andb_prop in G. destruct G as [G1 G2].
          apply negb_true_iff in G1, G2.
          destruct r as [e | []]; try reflexivity.
          assert (R : queryCallback queryContext dontRetry (Success JNull) = Retry)
            by (apply queryCallback_Retry_iff; repeat split; assumption).
          congruence. }
      rewrite Hr. simpl in *. rewrite W, A.
      split; [reflexivity |]. destruct (answers (client c)); reflexivity.
    - (* the retry *)
      pose proof E as E'. unfold attempt in E'. rewrite Hc in E'.
      unfold client_query in E'.
      destruct (answers (client c)) as [| r rest] eqn:Ha; simpl in E';
        [discriminate |].
      injection E' as E' _.
      apply queryCallback_Retry_iff in E'. destruct E' as (-> & Hast & ->).
      assert (Hr : retried queryContext false c = true)
        by (unfold retried; rewrite Hast, Ha; reflexivity).
      rewrite Hr.
      destruct (executeQuery_retry_flag queryContext c1) as (o & _ & ->).
      simpl in *.
      rewrite attempt_wire, attempt_answers.
      destruct (attempt_frame _ _ _ _ _ E) as (-> & _).
      rewrite Hc, W, A, <- app_assoc. split; [reflexivity |].
      destruct rest; reflexivity. }
  destruct Hw as [Hw1 Hw2].
  repeat split; assumption.
Qed.

Lemma executeQuery_sends_once_or_twice_witness :
  wire (client (snd (executeQuery select_1 false
                       (live_connection [Success JNull; Success (JArr [])]))))
  = [(sql select_1, values select_1); (sql select_1, values select_1)].
Proof.
  exact (proj1 (executeQuery_sends_once_or_twice select_1 false
                  (live_connection [Success JNull; Success (JArr [])])
                  pgClient eq_refl)).
Defined.

(** X7: the retry flag matters for a null result only.  When the driver's
    answer is anything but a successful [null], or the context is
    AST-origin, [executeQuery] called with the flag set does exactly what
    it does with the flag unset. *)
Theorem retry_flag_matters_for_null_only (queryContext : QueryContext)
    (c : Connection) (h : HandleRef) (r : Reply) (rest : list Reply) :
  connection c = Some h ->
  answers (client c) = r :: rest ->
  truthy (ast queryContext) = true \/ r <> Success JNull ->
  executeQuery queryContext true c = executeQuery queryContext false c.
Proof.
  intros Hc Ha Hr.
  assert (Hsame : queryCallback queryContext true r
                  = queryCallback queryContext false r).
  { unfold queryCallback. destruct r as [e | data]; [reflexivity |].
    destruct (truthy (ast queryContext)); [reflexivity |].
    destruct (type_object data); [reflexivity |].
    destruct (type_null data) eqn:En; [| reflexivity].
    apply type_null_true in En. subst data.
    destruct Hr as [Hr | Hr]; [discriminate | congruence]. }
  destruct (queryCallback queryContext false r) as [o |] eqn:E.
  - rewrite (executeQuery_settles _ _ _ _ _ _ o Hc Ha Hsame).
    rewrite (executeQuery_settles _ _ _ _ _ _ o Hc Ha E). reflexivity.
  - destruct (queryCallback_retry_flag queryContext r Hsame).
Qed.

Lemma retry_flag_matters_for_null_only_witness :
  executeQuery select_1 true (live_connection [Success JUndefined])
  = executeQuery select_1 false (live_connection [Success JUndefined]).
Proof.
  apply (retry_flag_matters_for_null_only select_1
           (live_connection [Success JUndefined]) pgClient
           (Success JUndefined) [] eq_refl eq_refl).
  right. discriminate.
Defined.

(** X8: the outcome of the callback (lines 175-200), by cases that
    exclude one another.  It asks for a retry exactly when the flag is
    unset, the context is not AST-origin and the result is [null]; it
    rejects with the unexpected-return-value error exactly when the
    context is not AST-origin, the result is not accepted by
    [type.object], and the flag is set or the result is not [null]; and a
    result [type.object] accepts (a plain object that is not
    promise-like) always resolves, whatever its command or rows. *)
Theorem queryCallback_outcomes (queryContext : QueryContext)
    (dontRetry : bool) (r : Reply) :
  (queryCallback queryContext dontRetry r = Retry
   <-> dontRetry = false /\ truthy (ast queryContext) = false
       /\ r = Success JNull)
  /\ (queryCallback queryContext dontRetry r
      = Settle (Rejected unexpected_return_value)
      <-> exists data,
            r = Success data /\ truthy (ast queryContext) = false
            /\ type_object data = false
            /\ (dontRetry = true \/ type_null data = false))
  /\ (forall data,
         r = Success data ->
         type_object data = true ->
         exists v, queryCallback queryContext dontRetry r = Settle (Resolved v)).
Proof.
  split; [apply queryCallback_Retry_iff |].
  split; [apply queryCallback_unexpected_iff |].
  intros data -> Hobj. unfold queryCallback. rewrite Hobj.
  destruct (truthy (ast queryContext)); [eexists; reflexivity |].
  destruct (strict_eq_str _ "SELECT"); [eexists; reflexivity |].
  destruct (strict_eq_str _ "INSERT"); eexists; reflexivity.
Qed.

(* ===================================================================== *)
(** ** Further properties: escapeId and lock *)
(* ===================================================================== *)

(** X9: when [escapeId] (lines 151-155) returns.  It returns a name exactly
    when the input is a non-empty string and the adapter has its handle,
    and the name is then what the driver's [escapeIdentifier] makes of the
    input; a non-empty string on an adapter without handle throws a
    TypeError, the check of the input coming first. *)
Theorem escapeId_returns_iff (input : JsValue) (c : Connection) (s : string) :
  (escapeId input c = Return s
   <-> exists name,
         input = JStr name /\ name <> EmptyString
         /\ connection c = Some pgClient
         /\ s = escapeIdentifier (client c) name)
  /\ (forall name,
         input = JStr name -> name <> EmptyString -> connection c = None ->
         escapeId input c = Throw (no_handle "escapeIdentifier")).
Proof.
  split.
  - split.
    + unfold escapeId. destruct input; simpl; try discriminate.
      destruct s0 as [| ch r]; simpl; [discriminate |].
      destruct (connection c) as [[] |]; [| discriminate].
      intros H. injection H as <-.
      exists (String ch r). repeat split. discriminate.
    + intros (name & -> & Hn & Hc & ->).
      exact (escapeId_string name c pgClient Hn Hc).
  - intros name -> Hn Hc. unfold escapeId. simpl.
    destruct name as [| ch r]; [congruence |]. simpl. rewrite Hc. reflexivity.
Qed.

(** The property names for which the guard of line 119 finds a truthy
    value: the two lock modes and what the object literal inherits. *)
Definition accepted_lock_keys : list string :=
  map fst lockModes ++ map fst Object_prototype.

Lemma assoc_In_fst k ps :
  assoc k ps <> None <-> In k (map fst ps).
Proof.
  induction ps as [| [k' v] r IH]; simpl; [tauto |].
  destruct (String.eqb_spec k k') as [-> | Hne].
  - split; [intros _; left; reflexivity | discriminate].
  - rewrite IH. split; [tauto |]. intros [H | H]; [congruence | exact H].
Qed.

Lemma assoc_all_truthy k ps v :
  Forall (fun p => truthy (snd p) = true) ps ->
  assoc k ps = Some v -> truthy v = true.
Proof.
  induction 1 as [| [k' v'] r Hv _ IH]; simpl; [discriminate |].
  destruct (k =? k')%string; [| exact IH].
  intros H. injection H as <-. exact Hv.
Qed.

Lemma lookup_lockModes_truthy key :
  truthy (lookup lockModes key) = true <-> In key accepted_lock_keys.
Proof.
  unfold accepted_lock_keys. rewrite in_app_iff, <- !assoc_In_fst.
  unfold lookup. split.
  - destruct (assoc key lockModes); [left; discriminate |].
    destruct (assoc key Object_prototype); [right; discriminate |].
    discriminate.
  - intros H.
    destruct (assoc key lockModes) as [v |] eqn:E1.
    + apply (assoc_all_truthy key lockModes v); [| exact E1].
      repeat constructor.
    + destruct (assoc key Object_prototype) as [v |] eqn:E2.
      * apply (assoc_all_truthy key Object_prototype v); [| exact E2].
        repeat constructor.
      * destruct H as [H | H]; congruence.
Qed.

(** X10: which lock types the guard of line 119 lets through, and what
    happens to the others.  The guard accepts a lock type exactly when its
    name is one of the two keys of [lockModes] or a property the object
    literal inherits; every other lock type (the documented but
    unimplemented LOCK_READ among them) is refused through the callback
    with the "Invalid or not supported lock type" error, whatever the
    schema and the table, invalid ones included, and the adapter and the
    driver stay as they were. *)
Theorem lock_refuses_unlisted_types (schema table lockType : JsValue)
    (c : Connection) :
  ~ In (to_string lockType) accepted_lock_keys ->
  lock schema table lockType c
  = (Return (Rejected (Error ("Invalid or not supported lock type «"
                              ++ to_string lockType ++ "»!")%string)), c)
  /\ (forall key, truthy (lookup lockModes key) = true
                  <-> In key accepted_lock_keys).
Proof.
  intros Hn. split; [| apply lookup_lockModes_truthy].
  unfold lock.
  destruct (truthy (lookup lockModes (to_string lockType))) eqn:E;
    [| reflexivity].
  apply lookup_lockModes_truthy in E. contradiction.
Qed.

Lemma lock_refuses_unlisted_types_witness :
  lock (JNum 5) (JStr EmptyString) (JStr "LOCK_READ") (live_connection [])
  = (Return (Rejected (Error "Invalid or not supported lock type «LOCK_READ»!")),
     live_connection []).
Proof.
  refine (proj1 (lock_refuses_unlisted_types (JNum 5) (JStr EmptyString)
                   (JStr "LOCK_READ") (live_connection []) _)).
  unfold accepted_lock_keys. simpl.
  intros H.
  repeat (destruct H as [H | H]; [discriminate |]).
  exact H.
Defined.

(** X11: the statement [lock] builds for a supported mode (lines 30-33 and
    121).  On a connection that has its handle and is neither ended nor
    killed, with a non-empty table name and a schema that is either falsy
    (absent, [null], the empty string) or a non-empty string, [lock] sends
    LOCK TABLE, the escaped schema and a dot when there is a schema, the
    escaped table, IN, the mode's phrase and MODE; as one statement
    without bound values, first in line at the driver, and the callback
    gets what the execution of that statement yields. *)
Theorem lock_sends_exact_statement (schema : JsValue)
    (table lockType phrase : string) (c : Connection) (h : HandleRef) :
  connection c = Some h ->
  ended c = false -> killed c = false ->
  table <> EmptyString ->
  (truthy schema = true -> type_string schema = true) ->
  (lockType, phrase) = ("LOCK_WRITE", "SHARE ROW EXCLUSIVE")%string
  \/ (lockType, phrase) = ("LOCK_EXCLUSIVE", "ACCESS EXCLUSIVE")%string ->
  let text :=
    ("LOCK TABLE "
     ++ (if truthy schema
         then escapeIdentifier (client c) (to_string schema) ++ "."
         else EmptyString)
     ++ escapeIdentifier (client c) table
     ++ " IN " ++ phrase ++ " MODE;")%string in
  lock schema (JStr table) (JStr lockType) c
  = (Return (fst (executeQuery (context_of_sql text) false c)),
     snd (executeQuery (context_of_sql text) false c))
  /\ exists tail,
       wire (client (snd (lock schema (JStr table) (JStr lockType) c)))
       = wire (client c) ++ (text, []) :: tail.
Proof.
  intros Hc He Hk Ht Hs Hm text.
  assert (E : lock schema (JStr table) (JStr lockType) c
              = (Return (fst (executeQuery (context_of_sql text) false c)),
                 snd (executeQuery (context_of_sql text) false c))).
  { destruct (truthy schema) eqn:Es.
    - specialize (Hs eq_refl). destruct schema; try discriminate.
      assert (Hne : s <> EmptyString)
        by (intros ->; discriminate).
      pose proof (lock_supported_mode (Some s) table lockType phrase c h
                    Hc Ht ltac:(congruence) Hm) as L.
      cbv beta iota in L. rewrite L. unfold query. rewrite He, Hk.
      subst text. reflexivity.
    - pose proof (lock_supported_mode None table lockType phrase c h
                    Hc Ht ltac:(discriminate) Hm) as L.
      cbv beta iota in L.
      assert (Hl : lock schema (JStr table) (JStr lockType) c
                   = lock JUndefined (JStr table) (JStr lockType) c).
      { unfold lock. rewrite Es. reflexivity. }
      rewrite Hl, L. unfold query. rewrite He, Hk. reflexivity. }
  split; [exact E |].
  rewrite E. simpl.
  exact (executeQuery_wire_prefix (context_of_sql text) false c h Hc).
Qed.

Lemma lock_sends_exact_statement_witness :
  wire (client (snd (lock (JStr "public") (JStr "accounts") (JStr "LOCK_WRITE")
                       (live_connection [Success (JObj [("command", JStr "LOCK")])]))))
  = [(("LOCK TABLE " ++ pg_escapeIdentifier "public" ++ "."
       ++ pg_escapeIdentifier "accounts"
       ++ " IN SHARE ROW EXCLUSIVE MODE;")%string, [])].
Proof.
  destruct (lock_sends_exact_statement (JStr "public") "accounts" "LOCK_WRITE"
              "SHARE ROW EXCLUSIVE"
              (live_connection [Success (JObj [("command", JStr "LOCK")])])
              pgClient eq_refl eq_refl eq_refl ltac:(discriminate)
              ltac:(reflexivity) (or_introl eq_refl)) as [E _].
  rewrite E. reflexivity.
Defined.

(** X12: the schema is checked before the table (line 121).  With an
    accepted lock type and a schema that is truthy but not a string,
    [lock] throws the "Cannot escape id" error naming the schema, whatever
    the table, and neither the callback nor the driver is reached. *)
Theorem lock_throws_on_bad_schema (schema table lockType : JsValue)
    (c : Connection) :
  In (to_string lockType) accepted_lock_keys ->
  truthy schema = true ->
  type_string schema = false ->
  lock schema table lockType c
  = (Throw (Error ("Cannot escape id «" ++ to_string schema ++ "»!")%string), c).
Proof.
  intros Hk Hs Ht. apply lookup_lockModes_truthy in Hk.
  unfold lock. rewrite Hk, Hs. simpl negb. cbv iota.
  unfold escapeId. rewrite Ht. reflexivity.
Qed.

Lemma lock_throws_on_bad_schema_witness :
  lock (JNum 5) (JStr "accounts") (JStr "LOCK_EXCLUSIVE") (live_connection [])
  = (Throw (Error "Cannot escape id «5»!"), live_connection []).
Proof.
  apply (lock_throws_on_bad_schema (JNum 5) (JStr "accounts")
           (JStr "LOCK_EXCLUSIVE") (live_connection [])).
  - unfold accepted_lock_keys. simpl. right. left. reflexivity.
  - reflexivity.
  - reflexivity.
Defined.

(* ===================================================================== *)
(** ** Further properties: endConnection and createTransaction *)
(* ===================================================================== *)

(** X13: [endConnection] (lines 105-108) only talks to the handle.  It
    completes exactly on an adapter that has its handle; it then leaves
    the handle in place and the [ended] and [killed] flags, the pool
    membership and the statements sent as they were, so that a query run
    afterwards still reaches the driver; and a second call registers its
    callback after the first and requests the close again. *)
Theorem endConnection_leaves_adapter_open (callback : nat) (c c1 : Connection) :
  endConnection callback c = Return c1 ->
  connection c = Some pgClient
  /\ connection c1 = Some pgClient
  /\ ended c1 = ended c /\ killed c1 = killed c /\ pooled c1 = pooled c
  /\ wire (client c1) = wire (client c)
  /\ answers (client c1) = answers (client c)
  /\ (forall q dontRetry,
         exists tail,
           wire (client (snd (executeQuery q dontRetry c1)))
           = wire (client c) ++ (sql q, values q) :: tail)
  /\ (forall again,
         exists c2,
           endConnection again c1 = Return c2
           /\ endListeners (client c2)
              = endListeners (client c) ++ [callback; again]
           /\ endRequests (client c2) = S (S (endRequests (client c)))).
Proof.
  unfold endConnection at 1.
  destruct (connection c) as [[] |] eqn:Hc; [| discriminate].
  intros H. injection H as <-. simpl. rewrite Hc.
  repeat (split; [reflexivity |]). split.
  - intros q dontRetry.
    exact (executeQuery_wire_prefix q dontRetry
             (set_client (client_end (client_once_end callback (client c))) c)
             pgClient Hc).
  - intros again. unfold endConnection. simpl. rewrite Hc.
    eexists. split; [reflexivity |]. simpl.
    rewrite <- app_assoc. split; reflexivity.
Qed.

Lemma endConnection_leaves_adapter_open_witness :
  exists c1,
    endConnection 1 (live_connection []) = Return c1
    /\ killed c1 = false /\ ended c1 = false
    /\ wire (client (snd (executeQuery select_1 false c1)))
       = [(sql select_1, values select_1)].
Proof.
  eexists. split; [reflexivity |].
  destruct (endConnection_leaves_adapter_open 1 (live_connection []) _ eq_refl)
    as (_ & _ & He & Hk & _).
  split; [exact Hk |]. split; [exact He |]. reflexivity.
Defined.

(** X14: [createTransaction] (lines 216-230) does not look at the
    transaction flags.  On a connection that is neither ended nor killed
    it does the same thing whether or not the connection is already marked
    as a transaction; in particular, called again on a connection on which
    it has just begun a transaction, it sends another [start transaction;]
    instead of refusing. *)
Theorem createTransaction_ignores_open_transaction (c : Connection)
    (marked opened : bool) :
  ended c = false -> killed c = false ->
  createTransaction (set_transactionOpen opened (set_isTransaction marked c))
  = createTransaction c
  /\ (forall h, connection c = Some h ->
      exists tail,
        wire (client (snd (createTransaction (snd (createTransaction c)))))
        = wire (client (snd (createTransaction c)))
          ++ ("start transaction;"%string, []) :: tail).
Proof.
  intros He Hk. split.
  { unfold createTransaction. simpl. rewrite He, Hk. reflexivity. }
  intros h Hc.
  assert (E1 : createTransaction c
               = executeQuery begin_transaction false
                   (removeFromPool
                      (set_transactionOpen true (set_isTransaction true c)))).
  { unfold createTransaction. rewrite He, Hk. simpl. unfold query. simpl.
    rewrite He, Hk. reflexivity. }
  rewrite E1.
  set (c1 := removeFromPool (set_transactionOpen true (set_isTransaction true c))).
  destruct (executeQuery_frame begin_transaction false c1)
    as (F1 & F2 & F3 & _).
  set (c2 := snd (executeQuery begin_transaction false c1)) in *.
  simpl in F1, F2, F3.
  unfold createTransaction. rewrite F2, F3, He, Hk. simpl.
  unfold query. simpl. rewrite F2, F3, He, Hk. simpl.
  destruct (executeQuery_wire_prefix begin_transaction false
              (removeFromPool
                 (set_transactionOpen true (set_isTransaction true c2))) h)
    as [tail E]; [simpl; rewrite F1; exact Hc |].
  exists tail. exact E.
Qed.

Lemma createTransaction_ignores_open_transaction_witness :
  createTransaction
    (set_transactionOpen true
       (set_isTransaction true (live_connection [Success (JObj [])])))
  = createTransaction (live_connection [Success (JObj [])]).
Proof.
  exact (proj1 (createTransaction_ignores_open_transaction
                  (live_connection [Success (JObj [])]) true true
                  eq_refl eq_refl)).
Defined.

(* ===================================================================== *)
(** ** Further properties: renderSQLQuery *)
(* ===================================================================== *)

Definition or_empty (sql : option string) : string :=
  match sql with Some s => s | None => EmptyString end.

Lemma render_loop_no_match fuel esc vals text index :
  search text = None ->
  render_loop (S fuel) esc vals text 0 index = Some text.
Proof.
  intros H. simpl. unfold reg_exec. simpl. rewrite H. reflexivity.
Qed.

(** X15: a text without numbered placeholder (lines 250 and 261).
    [renderSQLQuery] returns it unchanged, whatever the values, absent
    ones included, and whether or not the adapter has its handle: the
    escaping primitive is not called at all, and one round of the loop is
    enough. *)
Theorem render_without_placeholder (sql : option string)
    (vals : option (list JsValue)) (c : Connection) (fuel : nat) :
  count_placeholders (list_ascii_of_string (or_empty sql)) = O ->
  renderSQLQuery (S fuel) sql vals c = Some (Return (or_empty sql)).
Proof.
  intros H. apply search_none in H. unfold renderSQLQuery.
  fold (or_empty sql).
  destruct (connection c).
  - rewrite (render_loop_no_match _ _ _ _ _ H).
    rewrite string_of_list_ascii_of_string. reflexivity.
  - rewrite H, string_of_list_ascii_of_string. reflexivity.
Qed.

Lemma render_without_placeholder_witness :
  renderSQLQuery 1 (Some "SELECT price || '$' FROM t"%string)
    (Some [JStr "unused"]) disconnected
  = Some (Return "SELECT price || '$' FROM t"%string).
Proof.
  exact (render_without_placeholder (Some "SELECT price || '$' FROM t"%string)
           (Some [JStr "unused"]) disconnected 0 eq_refl).
Defined.

(** X16: rendering on an adapter without handle (lines 252 and 256).  As
    soon as the text holds a numbered placeholder, [renderSQLQuery] throws
    the TypeError of the missing handle, with or without values, and
    never returns a partly rendered text. *)
Theorem render_without_handle_throws (sql : option string)
    (vals : option (list JsValue)) (c : Connection) (fuel : nat) :
  connection c = None ->
  count_placeholders (list_ascii_of_string (or_empty sql)) <> O ->
  renderSQLQuery fuel sql vals c = Some (Throw (no_handle "escapeLiteral")).
Proof.
  intros Hc Hn. unfold renderSQLQuery. fold (or_empty sql). rewrite Hc.
  destruct (search (list_ascii_of_string (or_empty sql))) eqn:E;
    [reflexivity |].
  apply count_none in E. contradiction.
Qed.

Lemma render_without_handle_throws_witness :
  renderSQLQuery 0 (Some "SELECT $1"%string) None disconnected
  = Some (Throw (no_handle "escapeLiteral")).
Proof.
  apply (render_without_handle_throws (Some "SELECT $1"%string) None
           disconnected 0 eq_refl).
  discriminate.
Defined.

(** The loop and the left-to-right rendering, for later use. *)
Lemma renderSQLQuery_scan (c : Connection) (h : HandleRef) (sql : string)
    (vals : list JsValue) (fuel : nat) :
  connection c = Some h ->
  (forall text,
      quoted (list_ascii_of_string (escapeLiteral (client c) text)) = true) ->
  (forall v, In v vals -> no_dollar (escape_chars (client c) v) = true) ->
  (String.length sql < fuel)%nat ->
  renderSQLQuery fuel (Some sql) (Some vals) c
  = Some (Return (string_of_list_ascii
                    (render_spec (escape_chars (client c)) vals
                       (list_ascii_of_string sql)))).
Proof.
  intros Hc Hq Hd Hf. unfold renderSQLQuery. rewrite Hc.
  assert (Hu : escape_chars (client c) JUndefined <> []).
  { intros E. pose proof (Hq (to_string JUndefined)) as Q.
    unfold escape_chars in E. rewrite E in Q. discriminate. }
  pose proof (render_loop_invariant (escape_chars (client c)) vals Hu Hd
                (fun v _ => Hq (to_string v))
                fuel [] (list_ascii_of_string sql) O eq_refl (Nat.le_0_l _))
    as Hinv.
  simpl in Hinv. rewrite Hinv; [reflexivity |].
  rewrite length_list_ascii_of_string. exact Hf.
Qed.

Lemma render_spec_count_exact esc vals :
  (forall v, In v vals -> no_dollar (esc v) = true) ->
  (forall v, In v vals -> quoted (esc v) = true) ->
  forall text,
    count_placeholders (render_spec esc vals text)
    = (count_placeholders text - List.length vals)%nat.
Proof.
  induction vals as [| v more IH]; intros Hd Hq text.
  - simpl. lia.
  - destruct (search text) as [[i m] |] eqn:Es.
    + rewrite (render_spec_step _ _ _ _ _ _ Es).
      destruct (search_parts _ _ _ Es) as (_ & Hc & _).
      pose proof (Hq v (or_introl eq_refl)) as Hqv.
      pose proof (Hd v (or_introl eq_refl)) as Hdv.
      rewrite count_clean.
      * rewrite count_clean by (apply clean_no_dollar; exact Hdv).
        rewrite IH.
        -- rewrite (count_search _ _ _ Es). simpl. reflexivity.
        -- intros w Hw. apply Hd. right. exact Hw.
        -- intros w Hw. apply Hq. right. exact Hw.
      * destruct (esc v) as [| e0 er]; [discriminate |].
        simpl in Hqv. apply negb_true_iff in Hqv.
        simpl. rewrite Hqv. exact Hc.
    + rewrite (render_spec_nothing_left _ _ _ Es).
      rewrite (count_none _ Es). reflexivity.
Qed.

(** X17: how many placeholders are left (lines 250-259).  When no escaped
    value contains a dollar sign and the driver's quoting never begins
    with a digit, the rendered text holds exactly the placeholders of the
    original text minus the number of values, and none if there were at
    least as many values as placeholders. *)
Theorem render_leaves_exactly_the_surplus (c : Connection) (h : HandleRef)
    (sql : string) (vals : list JsValue) (fuel : nat) :
  connection c = Some h ->
  (forall text,
      quoted (list_ascii_of_string (escapeLiteral (client c) text)) = true) ->
  (forall v, In v vals -> no_dollar (escape_chars (client c) v) = true) ->
  (String.length sql < fuel)%nat ->
  exists result,
    renderSQLQuery fuel (Some sql) (Some vals) c = Some (Return result)
    /\ count_placeholders (list_ascii_of_string result)
       = (count_placeholders (list_ascii_of_string sql) - List.length vals)%nat.
Proof.
  intros Hc Hq Hd Hf. eexists. split.
  - exact (renderSQLQuery_scan c h sql vals fuel Hc Hq Hd Hf).
  - rewrite list_ascii_of_string_of_list_ascii.
    apply render_spec_count_exact; [exact Hd |].
    intros v _. apply Hq.
Qed.

Lemma render_leaves_exactly_the_surplus_witness :
  exists result,
    renderSQLQuery 20 (Some "$1, $2, $3"%string) (Some [JStr "a"])
      (live_connection []) = Some (Return result)
    /\ count_placeholders (list_ascii_of_string result) = 2%nat.
Proof.
  refine (render_leaves_exactly_the_surplus (live_connection []) pgClient
            "$1, $2, $3" [JStr "a"] 20 eq_refl _ _ _).
  - intros text. apply pg_escapeLiteral_quoted.
  - intros v [<- | []]. reflexivity.
  - simpl. lia.
Defined.

(** X18: rendering twice.  Under the same conditions and with at least as
    many values as placeholders, the rendered text is final: rendering it
    again, with any values and on any adapter, gives it back unchanged. *)
Theorem render_is_stable_once_filled (c : Connection) (h : HandleRef)
    (sql : string) (vals : list JsValue) (fuel : nat) :
  connection c = Some h ->
  (forall text,
      quoted (list_ascii_of_string (escapeLiteral (client c) text)) = true) ->
  (forall v, In v vals -> no_dollar (escape_chars (client c) v) = true) ->
  (String.length sql < fuel)%nat ->
  (count_placeholders (list_ascii_of_string sql) <= List.length vals)%nat ->
  exists result,
    renderSQLQuery fuel (Some sql) (Some vals) c = Some (Return result)
    /\ forall again c' fuel',
         renderSQLQuery (S fuel') (Some result) again c'
         = Some (Return result).
Proof.
  intros Hc Hq Hd Hf Hn. eexists. split.
  - exact (renderSQLQuery_scan c h sql vals fuel Hc Hq Hd Hf).
  - intros again c' fuel'.
    assert (Hs : search (render_spec (escape_chars (client c)) vals
                           (list_ascii_of_string sql)) = None).
    { apply search_none. rewrite render_spec_count_exact;
        [lia | exact Hd | intros v _; apply Hq]. }
    unfold renderSQLQuery.
    rewrite list_ascii_of_string_of_list_ascii.
    destruct (connection c').
    + rewrite (render_loop_no_match _ _ _ _ _ Hs). reflexivity.
    + rewrite Hs. reflexivity.
Qed.

Lemma render_is_stable_once_filled_witness :
  exists result,
    renderSQLQuery 30 (Some "a = $1 AND b = $2"%string)
      (Some [JStr "x"; JNum 2]) (live_connection []) = Some (Return result)
    /\ renderSQLQuery 1 (Some result) (Some [JStr "y"]) disconnected
       = Some (Return result).
Proof.
  destruct (render_is_stable_once_filled (live_connection []) pgClient
              "a = $1 AND b = $2" [JStr "x"; JNum 2] 30 eq_refl
              (fun text => pg_escapeLiteral_quoted text)) as (r & E & Hr).
  - intros v [<- | [<- | []]]; reflexivity.
  - simpl. lia.
  - simpl. lia.
  - exists r. split; [exact E | apply Hr].
Defined.

Lemma render_loop_same_strings fuel esc vals vals' text lastIndex index :
  List.length vals = List.length vals' ->
  (forall i, esc (nth i vals JUndefined) = esc (nth i vals' JUndefined)) ->
  render_loop fuel esc vals text lastIndex index
  = render_loop fuel esc vals' text lastIndex index.
Proof.
  intros Hl He. revert text lastIndex index.
  induction fuel as [| fuel IH]; intros text lastIndex index; [reflexivity |].
  simpl. destruct (reg_exec text lastIndex) as [[pos m] |]; [| reflexivity].
  rewrite <- Hl, <- (He index). apply IH.
Qed.

(** X19: the renderer sees the values through their string form only
    (lines 139, 252 and 256).  Two value lists whose members have the same
    string forms render alike, for any text, fuel and adapter: the number
    5 is rendered as the string "5" is, and [null] as the string "null"
    is, that is as a quoted literal and not as SQL NULL. *)
Theorem render_depends_on_string_forms (fuel : nat) (sql : option string)
    (vals vals' : list JsValue) (c : Connection) :
  map to_string vals = map to_string vals' ->
  renderSQLQuery fuel sql (Some vals) c = renderSQLQuery fuel sql (Some vals') c.
Proof.
  intros Hm. unfold renderSQLQuery.
  destruct (connection c); [| reflexivity].
  rewrite (render_loop_same_strings fuel (escape_chars (client c)) vals vals');
    [reflexivity | |].
  - rewrite <- (length_map to_string vals), Hm. apply length_map.
  - intros i. unfold escape_chars. f_equal. f_equal.
    change "undefined"%string with (to_string JUndefined).
    rewrite <- !(map_nth to_string). rewrite Hm. reflexivity.
Qed.

Lemma render_depends_on_string_forms_witness :
  renderSQLQuery 30 (Some "a = $1 AND b = $2"%string)
    (Some [JNull; JNum 5]) (live_connection [])
  = Some (Return "a = 'null' AND b = '5'"%string).
Proof.
  rewrite (render_depends_on_string_forms 30 (Some "a = $1 AND b = $2"%string)
             [JNull; JNum 5] [JStr "null"; JStr "5"] (live_connection [])
             eq_refl).
  reflexivity.
Defined.

Lemma render_loop_more_fuel esc vals fuel fuel' text lastIndex index result :
  (fuel <= fuel')%nat ->
  render_loop fuel esc vals text lastIndex index = Some result ->
  render_loop fuel' esc vals text lastIndex index = Some result.
Proof.
  revert fuel' text lastIndex index.
  induction fuel as [| fuel IH]; intros fuel' text lastIndex index Hle;
    [discriminate |].
  destruct fuel' as [| fuel']; [lia |].
  simpl. destruct (reg_exec text lastIndex) as [[pos m] |]; [| trivial].
  apply IH. lia.
Qed.

Lemma reg_exec_nonneg text lastIndex :
  reg_exec text lastIndex = reg_exec text (Z.of_nat (Z.to_nat lastIndex)).
Proof. unfold reg_exec. rewrite Nat2Z.id. reflexivity. Qed.

Lemma render_loop_nonneg fuel esc vals text lastIndex index :
  render_loop fuel esc vals text lastIndex index
  = render_loop fuel esc vals text (Z.of_nat (Z.to_nat lastIndex)) index.
Proof.
  destruct fuel as [| fuel]; [reflexivity |].
  simpl. rewrite <- reg_exec_nonneg. reflexivity.
Qed.

Lemma render_loop_terminates esc vals :
  esc JUndefined <> [] ->
  forall left index text lastIndex,
    (List.length vals - index = left)%nat ->
    exists fuel result,
      render_loop fuel esc vals text lastIndex index = Some result.
Proof.
  intros Hu. induction left as [| left IH]; intros index text lastIndex Hl.
  - exists (S (List.length text)), text.
    rewrite render_loop_nonneg.
    apply (render_loop_exhausted esc vals Hu); lia.
  - destruct (reg_exec text lastIndex) as [[pos m] |] eqn:E.
    + destruct (IH (S index)
                  (if (index <? List.length vals)%nat
                   then js_replace text m (esc (nth index vals JUndefined))
                   else text)
                  (Z.of_nat (pos + List.length m)
                   + (Z.of_nat (List.length (esc (nth index vals JUndefined)))
                      - Z.of_nat (List.length m)))%Z
                  ltac:(lia)) as (fuel & result & Hr).
      exists (S fuel), result. simpl. rewrite E. exact Hr.
    + exists 1%nat, text. simpl. rewrite E. reflexivity.
Qed.

(** X20: the loop of lines 250-259 ends.  For every text and every values,
    on every adapter whose driver does not escape the text "undefined" to
    the empty string, there is an amount of fuel from which on
    [renderSQLQuery] gives one and the same completion: the loop comes to
    an end, also when values contain dollar signs or placeholders outnumber
    the values. *)
Theorem renderSQLQuery_terminates (sql : option string)
    (vals : option (list JsValue)) (c : Connection) :
  escapeLiteral (client c) "undefined" <> EmptyString ->
  exists fuel completion,
    forall fuel', (fuel <= fuel')%nat ->
                  renderSQLQuery fuel' sql vals c = Some completion.
Proof.
  intros Hu. unfold renderSQLQuery.
  destruct (connection c).
  - assert (Hu' : escape_chars (client c) JUndefined <> []).
    { unfold escape_chars. simpl.
      destruct (escapeLiteral (client c) "undefined"); [congruence |].
      discriminate. }
    destruct (render_loop_terminates (escape_chars (client c))
                (match vals with Some l => l | None => [] end) Hu'
                _ O (list_ascii_of_string (or_empty sql)) 0%Z eq_refl)
      as (fuel & result & Hr).
    exists fuel, (Return (string_of_list_ascii result)).
    intros fuel' Hle. fold (or_empty sql).
    rewrite (render_loop_more_fuel _ _ _ _ _ _ _ _ Hle Hr). reflexivity.
  - exists O.
    destruct (search (list_ascii_of_string
                        match sql with Some s => s | None => EmptyString end));
      eexists; intros fuel' _; reflexivity.
Qed.

Lemma renderSQLQuery_terminates_witness :
  exists fuel completion,
    forall fuel', (fuel <= fuel')%nat ->
                  renderSQLQuery fuel' (Some "$1 $2 $3"%string)
                    (Some [JStr "cost$"; JStr "$3"]) (live_connection [])
                  = Some completion.
Proof.
  apply (renderSQLQuery_terminates (Some "$1 $2 $3"%string)
           (Some [JStr "cost$"; JStr "$3"]) (live_connection [])).
  discriminate.
Defined.

(** X21: rendering without values (lines 245, 251 and 256).  With absent
    or empty values, on an adapter with its handle whose driver does not
    escape "undefined" to the empty string, the text comes back unchanged
    however many placeholders it holds, once the fuel exceeds its
    length. *)
Theorem render_without_values (sql : string) (vals : option (list JsValue))
    (c : Connection) (h : HandleRef) (fuel : nat) :
  connection c = Some h ->
  escapeLiteral (client c) "undefined" <> EmptyString ->
  vals = None \/ vals = Some [] ->
  (String.length sql < fuel)%nat ->
  renderSQLQuery fuel (Some sql) vals c = Some (Return sql).
Proof.
  intros Hc Hu Hv Hf.
  assert (Hu' : escape_chars (client c) JUndefined <> []).
  { unfold escape_chars. simpl.
    destruct (escapeLiteral (client c) "undefined"); [congruence |].
    discriminate. }
  assert (E : renderSQLQuery fuel (Some sql) vals c
              = match render_loop fuel (escape_chars (client c)) []
                        (list_ascii_of_string sql) (Z.of_nat 0) 0 with
                | Some result => Some (Return (string_of_list_ascii result))
                | None => None
                end).
  { unfold renderSQLQuery. rewrite Hc. destruct Hv as [-> | ->]; reflexivity. }
  rewrite E, (render_loop_exhausted (escape_chars (client c)) [] Hu').
  - rewrite string_of_list_ascii_of_string. reflexivity.
  - simpl. lia.
  - rewrite length_list_ascii_of_string. lia.
Qed.

Lemma render_without_values_witness :
  renderSQLQuery 20 (Some "SELECT $1, $2"%string) None (live_connection [])
  = Some (Return "SELECT $1, $2"%string).
Proof.
  apply (render_without_values "SELECT $1, $2" None (live_connection [])
           pgClient 20 eq_refl).
  - discriminate.
  - left. reflexivity.
  - simpl. lia.
Defined.

Lemma reg_exec_again text li pos m :
  reg_exec text (Z.of_nat li) = Some (pos, m) ->
  reg_exec text (Z.of_nat pos) = Some (pos, m).
Proof.
  intros E. destruct (reg_exec_bounds _ _ _ _ E) as (H1 & H2 & _).
  unfold reg_exec in *. rewrite Nat2Z.id in *.
  destruct (List.length text <? li)%nat; [discriminate |].
  destruct (search (skipn li text)) as [[i m'] |] eqn:Es; [| discriminate].
  simpl in E. injection E as <- <-.
  replace (List.length text <? li + i)%nat with false
    by (symmetry; apply Nat.ltb_ge; lia).
  destruct (search_split _ _ _ Es) as (before & after & Hs & Hl & _ & Hm).
  assert (Hk : skipn (li + i) text = m' ++ after).
  { rewrite Nat.add_comm, <- skipn_skipn, Hs, <- Hl.
    rewrite skipn_app, Nat.sub_diag, skipn_all. reflexivity. }
  rewrite Hk, search_eq, Hm. simpl. f_equal. f_equal. lia.
Qed.

Lemma render_loop_spins esc vals :
  esc JUndefined = [] ->
  forall fuel text li index pos m,
    (List.length vals <= index)%nat ->
    reg_exec text (Z.of_nat li) = Some (pos, m) ->
    render_loop fuel esc vals text (Z.of_nat li) index = None.
Proof.
  intros Hu. induction fuel as [| fuel IH];
    intros text li index pos m Hi E; [reflexivity |].
  simpl. rewrite E.
  replace (index <? List.length vals)%nat with false
    by (symmetry; apply Nat.ltb_ge; exact Hi).
  rewrite (nth_overflow vals JUndefined Hi), Hu. simpl List.length.
  replace (Z.of_nat (pos + List.length m) + (Z.of_nat 0 - Z.of_nat (List.length m)))%Z
    with (Z.of_nat pos) by lia.
  apply (IH text pos (S index) pos m); [lia |].
  exact (reg_exec_again _ _ _ _ E).
Qed.

(** X22: why the loop needs a non-empty escape (line 256).  With no
    values, a text holding a placeholder and a driver that escapes
    "undefined" to the empty string, the scan position is moved back onto
    the placeholder just found, every round finds it again and
    [renderSQLQuery] never returns, whatever the fuel. *)
Theorem render_spins_on_empty_escape (sql : string) (c : Connection)
    (h : HandleRef) :
  connection c = Some h ->
  escapeLiteral (client c) "undefined" = EmptyString ->
  count_placeholders (list_ascii_of_string sql) <> O ->
  forall fuel, renderSQLQuery fuel (Some sql) (Some []) c = None.
Proof.
  intros Hc Hu Hn fuel. unfold renderSQLQuery. rewrite Hc.
  destruct (search (list_ascii_of_string sql)) as [[i m] |] eqn:Es.
  - change 0%Z with (Z.of_nat 0).
    rewrite (render_loop_spins (escape_chars (client c)) []
               ltac:(unfold escape_chars; simpl; rewrite Hu; reflexivity)
               fuel (list_ascii_of_string sql) 0 0 i m (Nat.le_refl _));
      [reflexivity |].
    unfold reg_exec. simpl. rewrite Es. reflexivity.
  - apply count_none in Es. contradiction.
Qed.

(** A client whose literal escaping returns nothing. *)
Definition mute_client : Client :=
  mkClient (with_defaults no_config) (fun _ => EmptyString)
    pg_escapeIdentifier None [] [] 0 [] [].

Lemma render_spins_on_empty_escape_witness :
  renderSQLQuery 1000 (Some "SELECT $1"%string) (Some [])
    (set_client mute_client (live_connection [])) = None.
Proof.
  apply (render_spins_on_empty_escape "SELECT $1"
           (set_client mute_client (live_connection [])) pgClient eq_refl eq_refl).
  discriminate.
Defined.

(** X23: what a single value does to the first placeholder (line 252),
    without any condition on the value.  With exactly one value, the
    result is the text in which the leftmost placeholder has been replaced
    by the expansion [String.replace] makes of the escaped value, in which
    [$$] stands for a dollar sign, [$&] for the placeholder, [$`] for the
    text before it and [$'] for the text after it; all other placeholders
    stay.  So an escaped value is inserted as it is only if it is free of
    these patterns. *)
Theorem render_single_value_expands_patterns (sql : string) (v : JsValue)
    (c : Connection) (h : HandleRef) (i : nat) (m : chars) (fuel : nat) :
  connection c = Some h ->
  escapeLiteral (client c) "undefined" <> EmptyString ->
  search (list_ascii_of_string sql) = Some (i, m) ->
  let before := firstn i (list_ascii_of_string sql) in
  let after := skipn (i + List.length m) (list_ascii_of_string sql) in
  let result :=
    before ++ substitution (escape_chars (client c) v) m before after
    ++ after in
  (S (List.length result) < fuel)%nat ->
  renderSQLQuery fuel (Some sql) (Some [v]) c
  = Some (Return (string_of_list_ascii result)).
Proof.
  intros Hc Hu Hs before after result Hf.
  assert (Hu' : escape_chars (client c) JUndefined <> []).
  { unfold escape_chars. simpl.
    destruct (escapeLiteral (client c) "undefined"); [congruence |].
    discriminate. }
  unfold renderSQLQuery. rewrite Hc.
  destruct fuel as [| fuel]; [lia |].
  assert (Hr : reg_exec (list_ascii_of_string sql) 0 = Some (i, m)).
  { unfold reg_exec. simpl. rewrite Hs. reflexivity. }
  cbn [render_loop]. rewrite Hr. cbn [List.length Nat.ltb Nat.leb nth].
  assert (Hj : js_replace (list_ascii_of_string sql) m
                 (escape_chars (client c) v) = result).
  { unfold js_replace. rewrite (index_of_search _ _ _ Hs). reflexivity. }
  rewrite Hj.
  replace (Z.of_nat (i + List.length m)
           + (Z.of_nat (List.length (escape_chars (client c) v))
              - Z.of_nat (List.length m)))%Z
    with (Z.of_nat (i + List.length (escape_chars (client c) v))) by lia.
  rewrite (render_loop_exhausted (escape_chars (client c)) [v] Hu');
    [reflexivity | simpl; lia | lia].
Qed.

Lemma render_single_value_expands_patterns_witness :
  renderSQLQuery 40 (Some "price > $1 AND x"%string) (Some [JStr "cost$"])
    (live_connection [])
  = Some (Return "price > 'cost AND x AND x"%string).
Proof.
  refine (eq_trans
            (render_single_value_expands_patterns "price > $1 AND x"
               (JStr "cost$") (live_connection []) pgClient 8
               (list_ascii_of_string "$1") 40 eq_refl _ eq_refl _) _).
  - discriminate.
  - simpl. lia.
  - reflexivity.
Defined.
